(** * qpsolvers: the qpOASES adapter [qpoases_solve_qp]

    A shallow embedding of [src/qpsolvers/qpoases_.py].  The adapter is a
    short straight-line Python function: it reshapes a quadratic program
    into the calling convention of the qpOASES active-set solver, calls the
    solver and hands back the buffer holding the primal solution.

    The embedding keeps what the Python code manipulates:

    - numpy arrays live in a store and are passed around by reference, so
      that aliasing ([C = G], [lb_C = h]) and in-place writes by the native
      library ([nb_wsr], [x_opt]) are visible;
    - the module-level [options] object is a field of the interpreter state;
    - [warn] and the calls into the native library are recorded in a log;
    - Python exceptions are an error result;
    - the solver itself is an arbitrary implementation of the interface the
      adapter uses. *)

From Stdlib Require Import ZArith String DecimalString.
From Stdlib Require DecimalZ.
From Stdlib Require Import Floats.PrimFloat.
From Stdlib Require Floats.SpecFloat Floats.FloatOps.
From stdpp Require Import base option list.

Local Open Scope Z_scope.
Local Open Scope nat_scope.

(** ** numpy arrays *)

Module Numpy.

(** A one-dimensional [float64] array. *)
Definition vector : Type := list float.

(** A two-dimensional [float64] array.  The number of columns is kept next
    to the rows because an array of shape [(0, n)] still knows [n]. *)
Record matrix : Type := Matrix { ncols : nat; mrows : list vector }.

(** The entries of an array of dtype [object]: Python floats, Python ints
    and [None]. *)
Inductive pyobj : Type :=
| PyFloat (f : float)
| PyInt (z : Z)
| PyNone.

(** The dtypes, in the order of numpy's promotion. *)
Inductive dtype : Type :=
| int64
| float64
| object_.

(** The arrays the adapter can meet: arrays of one or two dimensions of
    dtype [float64] ([Arr1], [Arr2]), of dtype [int64] ([ArrInt], as
    [array([100])], and [ArrInt2]) and of dtype [object] ([ArrObject],
    [ArrObject2]).  A two-dimensional array carries its number of
    columns. *)
Inductive ndarray : Type :=
| Arr2 (m : matrix)
| Arr1 (v : vector)
| ArrInt2 (c : nat) (rows : list (list Z))
| ArrInt (v : list Z)
| ArrObject2 (c : nat) (rows : list (list pyobj))
| ArrObject (v : list pyobj).

(** The one-dimensional [object] array whose entries are floats and
    [None]. *)
Definition ArrObj (v : list (option float)) : ndarray :=
  ArrObject (map (from_option PyFloat PyNone) v).

(** Python exceptions raised on the paths of the adapter.  [Unsupported]
    is not a Python exception: it marks what no Python program can do, a
    reference to no object and an index into something that is not the
    counter cell. *)
Inductive exn : Type :=
| ValueError
| AttributeError
| IndexError
| UnboundLocalError
| Unsupported.

Inductive result (A : Type) : Type :=
| Ok (a : A)
| Raise (e : exn).
Arguments Ok {A} a.
Arguments Raise {A} e.

(** [a.dtype], [a.ndim], [a.shape[0]] and [a.shape[-1]] *)
Definition dtype_of (a : ndarray) : dtype :=
  match a with
  | Arr2 _ | Arr1 _ => float64
  | ArrInt2 _ _ | ArrInt _ => int64
  | ArrObject2 _ _ | ArrObject _ => object_
  end.

Definition ndim (a : ndarray) : nat :=
  match a with
  | Arr2 _ | ArrInt2 _ _ | ArrObject2 _ _ => 2
  | Arr1 _ | ArrInt _ | ArrObject _ => 1
  end.

Definition shape0 (a : ndarray) : nat :=
  match a with
  | Arr2 m => length (mrows m)
  | Arr1 v => length v
  | ArrInt2 _ rows => length rows
  | ArrInt v => length v
  | ArrObject2 _ rows => length rows
  | ArrObject v => length v
  end.

Definition width (a : ndarray) : nat :=
  match a with
  | Arr2 m => ncols m
  | Arr1 v => length v
  | ArrInt2 c _ => c
  | ArrInt v => length v
  | ArrObject2 c _ => c
  | ArrObject v => length v
  end.

(** [a[0]] on the integer array holding the iteration counter. *)
Definition getitem0 (a : ndarray) : result Z :=
  match a with
  | ArrInt (z :: _) => Ok z
  | ArrInt [] => Raise IndexError
  | _ => Raise Unsupported
  end.

(** [a[0] = z], as the binding writes the counter back. *)
Definition setitem0 (z : Z) (a : ndarray) : ndarray :=
  match a with
  | ArrInt (_ :: t) => ArrInt (z :: t)
  | _ => a
  end.

(** [ones(k)] and [zeros(k)] *)
Definition ones (k : nat) : vector := repeat 1%float k.
Definition zeros (k : nat) : vector := repeat 0%float k.

(** [c * v] for a Python float [c] and a [float64] array [v]. *)
Definition scale (c : float) (v : vector) : vector :=
  map (PrimFloat.mul c) v.

(** [atleast_1d]: an array is left as it is; [None] becomes the object
    array with the single entry [None]. *)
Definition atleast_1d (o : option ndarray) : ndarray :=
  match o with
  | Some a => a
  | None => ArrObject [PyNone]
  end.

(** [atleast_2d]: a one-dimensional array becomes a single row. *)
Definition atleast_2d (a : ndarray) : ndarray :=
  match a with
  | Arr1 v => Arr2 (Matrix (length v) [v])
  | ArrInt v => ArrInt2 (length v) [v]
  | ArrObject v => ArrObject2 (length v) [v]
  | Arr2 _ | ArrInt2 _ _ | ArrObject2 _ _ => a
  end.

(** The entries of an array as Python objects, row by row; a
    one-dimensional array is one row. *)
Definition rows (a : ndarray) : list (list pyobj) :=
  match a with
  | Arr2 m => map (map PyFloat) (mrows m)
  | Arr1 v => [map PyFloat v]
  | ArrInt2 _ rs => map (map PyInt) rs
  | ArrInt v => [map PyInt v]
  | ArrObject2 _ rs => rs
  | ArrObject v => [v]
  end.

(** The dtype of a concatenation: [int64] with [float64] gives [float64],
    anything with [object] gives [object]. *)
Definition promote (d1 d2 : dtype) : dtype :=
  match d1, d2 with
  | object_, _ | _, object_ => object_
  | float64, _ | _, float64 => float64
  | int64, int64 => int64
  end.

Definition result_type (arrs : list ndarray) : dtype :=
  foldr (fun a => promote (dtype_of a)) int64 arrs.

(** The cast of an [int64] to [float64]: the nearest float, ties to
    even. *)
Definition float_of_int (z : Z) : float :=
  FloatOps.SF2Prim
    (SpecFloat.binary_normalize FloatOps.prec FloatOps.emax z 0 false).

(** The entries of an array of the promoted dtype.  Promotion only goes
    up, so [None] is never cast to a number and a float never to an
    integer. *)
Definition as_float (x : pyobj) : float :=
  match x with
  | PyFloat f => f
  | PyInt z => float_of_int z
  | PyNone => nan
  end.

Definition as_int (x : pyobj) : Z :=
  match x with
  | PyInt z => z
  | PyFloat _ | PyNone => 0%Z
  end.

Definition array1 (d : dtype) (v : list pyobj) : ndarray :=
  match d with
  | float64 => Arr1 (map as_float v)
  | int64 => ArrInt (map as_int v)
  | object_ => ArrObject v
  end.

Definition array2 (d : dtype) (c : nat) (rs : list (list pyobj)) : ndarray :=
  match d with
  | float64 => Arr2 (Matrix c (map (map as_float) rs))
  | int64 => ArrInt2 c (map (map as_int) rs)
  | object_ => ArrObject2 c rs
  end.

(** [concatenate(arrs, 0)]: the arrays must have the same number of
    dimensions and, when they have two, the same number of columns. *)
Definition concatenate0 (arrs : list ndarray) : result ndarray :=
  match arrs with
  | [] => Raise ValueError
  | a :: _ =>
      if forallb (fun x => Nat.eqb (ndim x) (ndim a)) arrs
      then
        if Nat.eqb (ndim a) 1
        then Ok (array1 (result_type arrs)
                   (concat (concat (map rows arrs))))
        else
          if forallb (fun x => Nat.eqb (width x) (width a)) arrs
          then Ok (array2 (result_type arrs) (width a)
                     (concat (map rows arrs)))
          else Raise ValueError
      else Raise ValueError
  end.

(** [concatenate(arrs, 1)]: the arrays must have two dimensions and the
    same number of rows. *)
Definition concatenate1 (arrs : list ndarray) : result ndarray :=
  match arrs with
  | [] => Raise ValueError
  | a :: _ =>
      if forallb (fun x => Nat.eqb (ndim x) 2
                           && Nat.eqb (shape0 x) (shape0 a)) arrs
      then Ok (array2 (result_type arrs) (sum_list (map width arrs))
                 (foldr (fun x acc => zip_with app (rows x) acc)
                    (replicate (shape0 a) []) arrs))
      else Raise ValueError
  end.

(** [vstack(tup)]: every argument goes through [atleast_2d], then
    [concatenate] along axis 0. *)
Definition vstack (tup : list ndarray) : result ndarray :=
  concatenate0 (map atleast_2d tup).

(** [hstack(tup)]: every argument goes through [atleast_1d], then
    [concatenate] along axis 0 if the first array has one dimension,
    along axis 1 otherwise. *)
Definition hstack (tup : list (option ndarray)) : result ndarray :=
  let arrs := map atleast_1d tup in
  match arrs with
  | a :: _ =>
      if Nat.eqb (ndim a) 1 then concatenate0 arrs else concatenate1 arrs
  | [] => concatenate1 arrs
  end.

End Numpy.
Export Numpy.

(** ** The qpOASES binding *)

Module QpOASES.

(** Modelled from the spec: the enumeration [qpoases.PyPrintLevel] is not
    part of the adapter's file.  The adapter names one member, [NONE], the
    "silent" level; every other level is [PL k]. *)
Inductive PrintLevel : Type :=
| NONE
| PL (k : Z).

(** Modelled from the spec: the class [qpoases.PyOptions].  The adapter
    touches one attribute, [printLevel]. *)
Record Options : Type := mkOptions { printLevel : PrintLevel }.

(** Modelled from the spec: the enumeration [qpoases.PyReturnValue],
    "including at least success and iteration cap reached".  Every other
    status (infeasibility, numerical breakdown, internal error) is
    [RET k]. *)
Inductive ReturnValue : Type :=
| SUCCESSFUL_RETURN
| MAX_NWSR_REACHED
| RET (k : Z).

Definition ReturnValue_eqb (x y : ReturnValue) : bool :=
  match x, y with
  | SUCCESSFUL_RETURN, SUCCESSFUL_RETURN => true
  | MAX_NWSR_REACHED, MAX_NWSR_REACHED => true
  | RET j, RET k => Z.eqb j k
  | _, _ => false
  end.

(** A reference to an array in the store, and a Python value that is
    either such a reference or [None]. *)
Definition loc : Type := nat.
Definition pyref : Type := option loc.

(** Modelled from the spec: the native solver, "a black box exposing a
    bounded-variable problem constructor, a general-constrained problem
    constructor, an init/solve entry point taking cost matrix/vector,
    constraint matrix, variable bounds, constraint bounds, and an
    iteration-cap cell that the solver may mutate to report actual
    iterations used, a primal-solution extraction call".

    A solver object is a value of type [qp].  The entry points read their
    array arguments from the store; [init] and [initB] answer with a
    status and the count they write back into the iteration cell, and
    [getPrimalSolution] answers with what it writes into the buffer. *)
Record Backend : Type := {
  qp : Type;
  QProblem : nat -> nat -> qp;
  QProblemB : nat -> qp;
  setOptions : qp -> Options -> qp;
  init : qp -> list ndarray -> loc -> loc -> loc ->
         pyref -> pyref -> pyref -> pyref -> loc -> qp * ReturnValue * Z;
  initB : qp -> list ndarray -> loc -> loc ->
          pyref -> pyref -> loc -> qp * ReturnValue * Z;
  getPrimalSolution : qp -> list ndarray -> loc -> vector;
}.

End QpOASES.
Export QpOASES.

(** ** The Python state and its effects *)

Module Py.

(** What a call leaves behind for an observer: the warnings, and the calls
    into the native library with the references they were given.  [Init]
    and [InitB] carry the store the solver read and the status it
    answered. *)
Inductive event : Type :=
| Warning (msg : string)
| New_QProblem (nV nC : nat)
| New_QProblemB (nV : nat)
| SetOptions (o : Options)
| Init (P q C : loc) (lb ub lbA ubA : pyref) (nWSR : loc)
       (store : list ndarray) (status : ReturnValue)
| InitB (P q : loc) (lb ub : pyref) (nWSR : loc)
        (store : list ndarray) (status : ReturnValue)
| GetPrimalSolution (xOpt : loc).

(** The store of arrays (a reference is an index into it), the
    module-level [options] object, and the log. *)
Record pystate : Type := PyState {
  heap : list ndarray;
  options : Options;
  log : list event;
}.

Definition M (A : Type) : Type := pystate -> result A * pystate.

#[global] Instance M_ret : MRet M := fun A a s => (Ok a, s).

#[global] Instance M_bind : MBind M := fun A B f m s =>
  match m s with
  | (Ok a, s') => f a s'
  | (Raise e, s') => (Raise e, s')
  end.

Definition raise {A : Type} (e : exn) : M A := fun s => (Raise e, s).

Definition lift {A : Type} (r : result A) : M A := fun s => (r, s).

Definition emit (e : event) : M unit := fun s =>
  (Ok tt, PyState (heap s) (options s) (log s ++ [e])).

(** [warn(msg)] under the default filter: the message is reported and the
    call goes on. *)
Definition warn (msg : string) : M unit := emit (Warning msg).

(** A new array object: its reference is the next free index. *)
Definition alloc (a : ndarray) : M loc := fun s =>
  (Ok (length (heap s)), PyState (heap s ++ [a]) (options s) (log s)).

Definition deref (l : loc) : M ndarray := fun s =>
  match heap s !! l with
  | Some a => (Ok a, s)
  | None => (Raise Unsupported, s)
  end.

(** The value of an argument that may be [None]. *)
Definition value (r : pyref) : M (option ndarray) :=
  match r with
  | None => mret None
  | Some l => a ← deref l; mret (Some a)
  end.

(** [r.shape]-style attribute access: [None] has no attributes. *)
Definition attr (r : pyref) : M ndarray :=
  match r with
  | None => raise AttributeError
  | Some l => deref l
  end.

Definition get_heap : M (list ndarray) := fun s => (Ok (heap s), s).

Definition get_options : M Options := fun s => (Ok (options s), s).

(** An in-place write by the native library into an existing array. *)
Definition update (l : loc) (f : ndarray -> ndarray) : M unit := fun s =>
  (Ok tt, PyState (alter f l (heap s)) (options s) (log s)).

(** ["%d" % z] *)
Definition format_d (z : Z) : string := NilEmpty.string_of_int (Z.to_int z).

End Py.
Export Py.

(** ** The adapter *)

(** Module level of [qpoases_.py]:
    [__infty = 1e10], and [options = Options()] followed by
    [options.printLevel = PrintLevel.NONE]. *)
Definition __infty : float := 1e10%float.

Definition import_module (hp : list ndarray) : pystate :=
  PyState hp (mkOptions NONE) [].

Definition warm_start_msg : string :=
  "[qpsolvers] warm-start values ignored by qpOASES wrapper".

Definition max_nwsr_msg (z : Z) : string :=
  String.append "qpOASES reached the maximum number of WSR ("
    (String.append (format_d z) ")").

Section Adapter.

Context (B : Backend).

(** [qpoases_solve_qp(P, q, G=None, h=None, A=None, b=None, initvals=None)]

    The local variables [C], [lb_C] and [ub_C] are bound by the
    [if]/[elif] chain only; [blk] is [None] while they are unbound.  An
    array that is bound to a variable gets a place in the store; the
    temporaries of an expression ([ones(...)] and its product with
    [-__infty]) are values.  The solver object is the local value [qp_],
    rebound where Python changes the object in place; each call into the
    library is logged as it is made. *)
Definition qpoases_solve_qp (P q : loc) (G h A b initvals : pyref)
  : M pyref :=
  (if initvals is Some _ then warn warm_start_msg else mret tt) ;;
  P_ ← deref P;
  let n := shape0 P_ in
  let lb : pyref := None in
  let ub : pyref := None in
  nb_wsr ← alloc (ArrInt [100%Z]);
  let has_cons := bool_decide (G ≠ None) || bool_decide (A ≠ None) in
  blk ← match G, A with
        | Some g, None =>
            mret (Some (g, None, h))
        | None, Some a =>
            A_ ← deref a;
            C_ ← lift (vstack [A_; A_]);
            C ← alloc C_;
            mret (Some (C, h, h))
        | Some g, Some a =>
            G_ ← deref g;
            A_ ← deref a;
            C_ ← lift (vstack [G_; A_; A_]);
            C ← alloc C_;
            h_ ← attr h;
            b_ ← value b;
            lb_C_ ← lift (hstack [Some (Arr1 (scale (PrimFloat.opp __infty)
                                                 (ones (shape0 h_)))); b_]);
            lb_C ← alloc lb_C_;
            h_ ← value h;
            b_ ← value b;
            ub_C_ ← lift (hstack [h_; b_]);
            ub_C ← alloc ub_C_;
            mret (Some (C, Some lb_C, Some ub_C))
        | None, None =>
            mret None
        end;
  qp_ ←
    (if has_cons then
       match blk with
       | None => raise UnboundLocalError
       | Some (C, lb_C, ub_C) =>
           C_ ← deref C;
           let qp_ := QProblem B n (shape0 C_) in
           emit (New_QProblem n (shape0 C_)) ;;
           o ← get_options;
           let qp_ := setOptions B qp_ o in
           emit (SetOptions o) ;;
           σ ← get_heap;
           let '(qp_, return_value, k) :=
             init B qp_ σ P q C lb ub lb_C ub_C nb_wsr in
           emit (Init P q C lb ub lb_C ub_C nb_wsr σ return_value) ;;
           update nb_wsr (setitem0 k) ;;
           (if ReturnValue_eqb return_value MAX_NWSR_REACHED
            then
              w ← deref nb_wsr;
              z ← lift (getitem0 w);
              warn (max_nwsr_msg z)
            else mret tt) ;;
           mret qp_
       end
     else
       let qp_ := QProblemB B n in
       emit (New_QProblemB n) ;;
       o ← get_options;
       let qp_ := setOptions B qp_ o in
       emit (SetOptions o) ;;
       σ ← get_heap;
       let '(qp_, return_value, k) := initB B qp_ σ P q lb ub nb_wsr in
       emit (InitB P q lb ub nb_wsr σ return_value) ;;
       update nb_wsr (setitem0 k) ;;
       mret qp_);
  x_opt ← alloc (Arr1 (zeros n));
  σ ← get_heap;
  emit (GetPrimalSolution x_opt) ;;
  update x_opt (fun _ => Arr1 (getPrimalSolution B qp_ σ x_opt)) ;;
  mret (Some x_opt).

End Adapter.

(** * Specification vocabulary *)

(** ** Closed forms of a call that reaches the solver *)

Definition warm_start_warning (initvals : pyref) : list event :=
  if initvals is Some _ then [Warning warm_start_msg] else [].

Definition cap_warning (status : ReturnValue) (k : Z) : list event :=
  if ReturnValue_eqb status MAX_NWSR_REACHED
  then [Warning (max_nwsr_msg k)] else [].

Section Closed_forms.

Context (B : Backend).

(** The general-constrained variant, from the construction of the solver
    on: [σ] is the store at the time of [qp.init], [C], [lb_C] and [ub_C]
    the references bound by the [if]/[elif] chain. *)
Definition constrained_run (s : pystate) (initvals : pyref) (n : nat)
    (P q C : loc) (lb_C ub_C : pyref) (σ : list ndarray) (nC : nat)
  : result pyref * pystate :=
  let nb_wsr := length (heap s) in
  let '(qp_, status, k) :=
    init B (setOptions B (QProblem B n nC) (options s))
      σ P q C None None lb_C ub_C nb_wsr in
  let σ' := alter (setitem0 k) nb_wsr σ in
  let x_opt := length σ' in
  (Ok (Some x_opt),
   PyState
     (σ' ++ [Arr1 (getPrimalSolution B qp_ (σ' ++ [Arr1 (zeros n)]) x_opt)])
     (options s)
     (log s ++ warm_start_warning initvals
        ++ [New_QProblem n nC; SetOptions (options s);
            Init P q C None None lb_C ub_C nb_wsr σ status]
        ++ cap_warning status k ++ [GetPrimalSolution x_opt])).

(** The bounds-only variant. *)
Definition bounded_run (s : pystate) (initvals : pyref) (n : nat)
    (P q : loc) : result pyref * pystate :=
  let nb_wsr := length (heap s) in
  let σ := heap s ++ [ArrInt [100%Z]] in
  let '(qp_, status, k) :=
    initB B (setOptions B (QProblemB B n) (options s))
      σ P q None None nb_wsr in
  let σ' := heap s ++ [ArrInt [k]] in
  let x_opt := length σ' in
  (Ok (Some x_opt),
   PyState
     (σ' ++ [Arr1 (getPrimalSolution B qp_ (σ' ++ [Arr1 (zeros n)]) x_opt)])
     (options s)
     (log s ++ warm_start_warning initvals
        ++ [New_QProblemB n; SetOptions (options s);
            InitB P q None None nb_wsr σ status]
        ++ [GetPrimalSolution x_opt])).

End Closed_forms.

(** ** What a call leaves in the log *)

(** The events a call appended to the log. *)
Definition emitted (s s' : pystate) : list event :=
  drop (length (log s)) (log s').

Fixpoint warnings (l : list event) : list string :=
  match l with
  | [] => []
  | Warning msg :: l' => msg :: warnings l'
  | _ :: l' => warnings l'
  end.

Fixpoint solver_calls (l : list event) : list event :=
  match l with
  | [] => []
  | Warning _ :: l' => solver_calls l'
  | e :: l' => e :: solver_calls l'
  end.

(** The events of a call of the adapter that returns [x]: the warm-start
    warning if [initvals] was given, then a solver is constructed, given
    the options, initialised with a new counter cell holding 100 and null
    variable bounds, and asked for its primal solution.  Only the
    general-constrained variant may be followed by the warning about the
    iteration cap. *)
Definition solver_session (P q : loc) (G A initvals : pyref) (s : pystate)
    (new : list event) (x : loc) : Prop :=
  exists (P_ : ndarray) (σ : list ndarray) (status : ReturnValue),
    heap s !! P = Some P_ /\
    heap s !! length (heap s) = None /\
    σ !! length (heap s) = Some (ArrInt [100%Z]) /\
    ((G = None /\ A = None /\
      new = warm_start_warning initvals
            ++ [New_QProblemB (shape0 P_); SetOptions (options s);
                InitB P q None None (length (heap s)) σ status;
                GetPrimalSolution x])
     \/
     ((G <> None \/ A <> None) /\
      exists (C : loc) (C_ : ndarray) (lb_C ub_C : pyref) (k : Z),
        σ !! C = Some C_ /\
        new = warm_start_warning initvals
              ++ [New_QProblem (shape0 P_) (shape0 C_);
                  SetOptions (options s);
                  Init P q C None None lb_C ub_C (length (heap s)) σ status]
              ++ cap_warning status k ++ [GetPrimalSolution x])).

(** What holds of every call, whatever its arguments: the module-level
    options are left as they were, the arrays that existed before the call
    are left as they were, and the log grows by the warm-start warning
    alone when the call raises, by a solver session when it returns. *)
Definition call_post (P q : loc) (G A initvals : pyref) (s : pystate)
    (r : result pyref) (s' : pystate) : Prop :=
  options s' = options s /\
  heap s `prefix_of` heap s' /\
  exists new : list event,
    log s' = log s ++ new /\
    match r with
    | Raise _ => new = warm_start_warning initvals
    | Ok v =>
        exists (x : loc) (sol : vector),
          v = Some x /\ heap s' !! x = Some (Arr1 sol) /\
          solver_session P q G A initvals s new x
    end.

(** ** Weakest preconditions and log-obliviousness *)

Definition wp {A : Type} (m : M A) (s : pystate)
    (Q : result A -> pystate -> Prop) : Prop :=
  Q (m s).1 (m s).2.

(** The same state with [pre] in front of its log. *)
Definition relog (pre : list event) (s : pystate) : pystate :=
  PyState (heap s) (options s) (pre ++ log s).

(** A computation that never reads the log: run on a longer log, it does
    the same and leaves the same events after the longer log. *)
Definition oblivious {A : Type} (m : M A) : Prop :=
  forall pre s, m (relog pre s) = ((m s).1, relog pre (m s).2).

(** ** A concrete solver and a concrete problem *)

(** A solver that answers [status] to [init], reports [k] working-set
    recalculations and leaves the solution buffer as it finds it. *)
Definition stub (status : ReturnValue) (k : Z) : Backend := {|
  qp := unit;
  QProblem := fun _ _ => tt;
  QProblemB := fun _ => tt;
  setOptions := fun solver _ => solver;
  init := fun solver _ _ _ _ _ _ _ _ _ => (solver, status, k);
  initB := fun solver _ _ _ _ _ _ => (solver, status, k);
  getPrimalSolution := fun _ σ x =>
    match σ !! x with
    | Some (Arr1 v) => v
    | _ => []
    end;
|}.

(** The arrays of a caller: [P] (0), [q] (1), [A] (2), [b] (3), [G] (4),
    and [h] (5) of a problem in two variables with one equality and one
    inequality constraint. *)
Definition caller_arrays : list ndarray :=
  [ Arr2 (Matrix 2 [[1; 0]; [0; 1]]%float);
    Arr1 [0; 0]%float;
    Arr2 (Matrix 2 [[1; 1]]%float);
    Arr1 [1]%float;
    Arr2 (Matrix 2 [[-1; 0]]%float);
    Arr1 [0]%float ].

(** ** The states of a process that has imported the module *)


(** ** More of what every call does *)

(** The exceptions a call can end in: [ValueError] from [vstack] or
    [hstack] and [AttributeError] from [h.shape] arise in the branch for
    [G] and [A] only; [UnboundLocalError] and [IndexError] never arise. *)
Definition exception_post (G h A : pyref) (r : result pyref) : Prop :=
  match r with
  | Ok _ => True
  | Raise ValueError => G <> None /\ A <> None
  | Raise AttributeError => G <> None /\ A <> None /\ h = None
  | Raise Unsupported => True
  | Raise _ => False
  end.

(** The array a call returns: a new place [x] in the store, which held
    [zeros(n)] when it was handed to [getPrimalSolution] and holds what the
    solver wrote there. *)
Definition buffer_post (B : Backend) (P : loc) (s : pystate)
    (r : result pyref) (s' : pystate) : Prop :=
  match r with
  | Raise _ => True
  | Ok v =>
      exists (x : loc) (P_ : ndarray) (qp_ : qp B) (σ : list ndarray),
        v = Some x /\
        heap s !! P = Some P_ /\
        heap s !! x = None /\
        σ !! x = Some (Arr1 (zeros (shape0 P_))) /\
        heap s' !! x = Some (Arr1 (getPrimalSolution B qp_ σ x))
  end.

(** The counter cell of a call that returns: [qp.init] found 100 in it, and
    after the call it holds the count [k] that [qp.init] answered; the
    general-constrained variant reports [k] when the status is the
    iteration cap, the bounds-only variant reports nothing. *)
Definition counter_post (B : Backend) (P q : loc) (G A initvals : pyref)
    (s : pystate) (r : result pyref) (s' : pystate) : Prop :=
  match r with
  | Raise _ => True
  | Ok _ =>
      exists (new : list event) (qp_ : qp B) (status : ReturnValue) (k : Z)
             (σ : list ndarray) (x : loc),
        log s' = log s ++ new /\
        σ !! length (heap s) = Some (ArrInt [100%Z]) /\
        heap s' !! length (heap s) = Some (ArrInt [k]) /\
        ((G = None /\ A = None /\
          exists n,
            initB B (setOptions B (QProblemB B n) (options s))
              σ P q None None (length (heap s))
            = (qp_, status, k) /\
            new = warm_start_warning initvals
                  ++ [New_QProblemB n; SetOptions (options s);
                      InitB P q None None (length (heap s)) σ status;
                      GetPrimalSolution x])
         \/
         ((G <> None \/ A <> None) /\
          exists n nC C lb_C ub_C,
            init B (setOptions B (QProblem B n nC) (options s))
              σ P q C None None lb_C ub_C (length (heap s))
            = (qp_, status, k) /\
            new = warm_start_warning initvals
                  ++ [New_QProblem n nC; SetOptions (options s);
                      Init P q C None None lb_C ub_C (length (heap s))
                        σ status]
                  ++ cap_warning status k ++ [GetPrimalSolution x]))
  end.

(** A solver whose [getPrimalSolution] fills the buffer it is given and
    leaves its length alone. *)
Definition fills_buffer (B : Backend) : Prop :=
  forall (qp_ : qp B) (σ : list ndarray) (x : loc) (v : vector),
    σ !! x = Some (Arr1 v) ->
    length (getPrimalSolution B qp_ σ x) = length v.

(** The caller's arrays with a constraint matrix [G] of three columns. *)
Definition mismatched_arrays : list ndarray :=
  [ Arr2 (Matrix 2 [[1; 0]; [0; 1]]%float);
    Arr1 [0; 0]%float;
    Arr2 (Matrix 2 [[1; 1]]%float);
    Arr1 [1]%float;
    Arr2 (Matrix 3 [[-1; 0; 0]]%float);
    Arr1 [0]%float ].

(** The caller's arrays with integer bounds [h] and [b]. *)
Definition integer_arrays : list ndarray :=
  [ Arr2 (Matrix 2 [[1; 0]; [0; 1]]%float);
    Arr1 [0; 0]%float;
    Arr2 (Matrix 2 [[1; 1]]%float);
    ArrInt [1%Z];
    Arr2 (Matrix 2 [[-1; 0]]%float);
    ArrInt [0%Z] ].

(** The caller's arrays with [b] given as a column, of shape [(1, 1)]. *)
Definition column_arrays : list ndarray :=
  [ Arr2 (Matrix 2 [[1; 0]; [0; 1]]%float);
    Arr1 [0; 0]%float;
    Arr2 (Matrix 2 [[1; 1]]%float);
    Arr2 (Matrix 1 [[1]]%float);
    Arr2 (Matrix 2 [[-1; 0]]%float);
    Arr1 [0]%float ].

(** ** Calls that numpy or Python reject *)

(** An argument that is [None] or an array of the store. *)
Definition in_store (s : pystate) (r : pyref) : bool :=
  match r with
  | Some l => l <? length (heap s)
  | None => true
  end.

(** [r] is an array of two dimensions. *)
Definition two_dimensional (s : pystate) (r : pyref) : Prop :=
  exists l a, r = Some l /\ heap s !! l = Some a /\ ndim a = 2.

(** [G] and [A] are arrays whose rows differ in length. *)
Definition widths_differ (s : pystate) (G A : pyref) : Prop :=
  exists g a G_ A_,
    G = Some g /\ A = Some a /\
    heap s !! g = Some G_ /\ heap s !! a = Some A_ /\
    width G_ <> width A_.

(** What the branch for [G] and [A] rejects: [vstack([G, A, A])] raises
    [ValueError] on rows of different lengths, [hstack] raises
    [ValueError] on a two-dimensional [h] or [b], and [h.shape] raises
    [AttributeError] when [h] is [None]. *)
Definition rejected (s : pystate) (G h A b : pyref) (e : exn) : Prop :=
  (e = ValueError /\
   (widths_differ s G A \/ two_dimensional s h \/ two_dimensional s b)) \/
  (e = AttributeError /\ h = None).

(** A call raises only with both [G] and [A] given, and only what the
    branch for [G] and [A] rejects. *)
Definition rejection_post (s : pystate) (G h A b : pyref)
    (r : result pyref) : Prop :=
  match r with
  | Ok _ => True
  | Raise e => G <> None /\ A <> None /\ rejected s G h A b e
  end.

(** * Proofs *)

(** ** Running the adapter: equations of the monad and of the store *)

Section Run.

Context {A B C : Type}.

Lemma bind_ok (m : M A) (f : A -> M B) s a s' :
  m s = (Ok a, s') -> (m ≫= f) s = f a s'.
Proof. intros H. unfold mbind, M_bind. rewrite H. reflexivity. Qed.

Lemma bind_raise (m : M A) (f : A -> M B) s e s' :
  m s = (Raise e, s') -> (m ≫= f) s = (Raise e, s').
Proof. intros H. unfold mbind, M_bind. rewrite H. reflexivity. Qed.

Lemma bind_assoc (m : M A) (f : A -> M B) (g : B -> M C) s :
  ((m ≫= f) ≫= g) s = (m ≫= (fun x => f x ≫= g)) s.
Proof. unfold mbind, M_bind. destruct (m s) as [[a|e] s']; reflexivity. Qed.

Lemma bind_ok_eq (m : M A) (f : A -> M B) s a s' r :
  m s = (Ok a, s') -> f a s' = r -> (m ≫= f) s = r.
Proof. intros H <-. by apply bind_ok. Qed.

Lemma bind_assoc_eq (m : M A) (f : A -> M B) (g : B -> M C) s r :
  (m ≫= (fun x => f x ≫= g)) s = r -> ((m ≫= f) ≫= g) s = r.
Proof. intros <-. apply bind_assoc. Qed.

End Run.

Lemma deref_ok l a s : heap s !! l = Some a -> deref l s = (Ok a, s).
Proof. intros H. unfold deref. rewrite H. reflexivity. Qed.

Lemma deref_dangling l s :
  heap s !! l = None -> deref l s = (Raise Unsupported, s).
Proof. intros H. unfold deref. rewrite H. reflexivity. Qed.

Lemma value_ok l a s :
  heap s !! l = Some a -> value (Some l) s = (Ok (Some a), s).
Proof.
  intros H. unfold value.
  erewrite bind_ok by (apply deref_ok; eassumption). reflexivity.
Qed.

Lemma attr_ok l a s : heap s !! l = Some a -> attr (Some l) s = (Ok a, s).
Proof. apply deref_ok. Qed.

Lemma lookup_fresh {A} (l : list A) a : (l ++ [a]) !! length l = Some a.
Proof. by apply list_lookup_middle. Qed.

Lemma alter_fresh {A} (f : A -> A) (l : list A) a :
  alter f (length l) (l ++ [a]) = l ++ [f a].
Proof.
  replace (length l) with (length l + 0) by lia.
  rewrite alter_app_r. reflexivity.
Qed.

(** numpy on the arrays the docstring announces *)

Lemma rows_as_float (l : list vector) :
  map (map as_float) (map (map PyFloat) l) = l.
Proof.
  induction l as [|v l IH]; simpl; [done|]. rewrite IH. f_equal.
  induction v as [|x v IHv]; simpl; [done|]. by rewrite IHv.
Qed.

Lemma entries_as_float (v : vector) : map as_float (map PyFloat v) = v.
Proof. induction v as [|x v IH]; simpl; [done|]. by rewrite IH. Qed.

Lemma vstack_twice Am :
  vstack [Arr2 Am; Arr2 Am]
  = Ok (Arr2 (Matrix (ncols Am) (mrows Am ++ mrows Am))).
Proof.
  unfold vstack, concatenate0; simpl. rewrite Nat.eqb_refl; simpl.
  by rewrite app_nil_r, <- map_app, rows_as_float.
Qed.

Lemma vstack_G_A_A Gm Am :
  ncols Gm = ncols Am ->
  vstack [Arr2 Gm; Arr2 Am; Arr2 Am]
  = Ok (Arr2 (Matrix (ncols Gm) (mrows Gm ++ mrows Am ++ mrows Am))).
Proof.
  intros H. unfold vstack, concatenate0; simpl.
  rewrite <- H, Nat.eqb_refl; simpl.
  by rewrite app_nil_r, <- !map_app, rows_as_float.
Qed.

Lemma vstack_G_A_A_mismatch Gm Am :
  ncols Gm <> ncols Am ->
  vstack [Arr2 Gm; Arr2 Am; Arr2 Am] = Raise ValueError.
Proof.
  intros H. unfold vstack, concatenate0; simpl. rewrite Nat.eqb_refl; simpl.
  assert (ncols Am <> ncols Gm) as Hn by congruence.
  by apply Nat.eqb_neq in Hn as ->.
Qed.

Lemma hstack_pair v w :
  hstack [Some (Arr1 v); Some (Arr1 w)] = Ok (Arr1 (v ++ w)).
Proof.
  unfold hstack, concatenate0; simpl.
  by rewrite app_nil_r, <- map_app, entries_as_float.
Qed.

Lemma hstack_pair_None v :
  hstack [Some (Arr1 v); None] = Ok (ArrObj (map Some v ++ [None])).
Proof.
  unfold hstack, concatenate0, ArrObj; simpl.
  by rewrite map_app, map_map.
Qed.

(** [hstack] on integer arrays: with a [float64] array the integers are
    cast, with another integer array they are kept. *)
Lemma hstack_float_int (v : vector) (z : list Z) :
  hstack [Some (Arr1 v); Some (ArrInt z)]
  = Ok (Arr1 (v ++ map float_of_int z)).
Proof.
  unfold hstack, concatenate0; simpl.
  by rewrite app_nil_r, map_app, entries_as_float, map_map.
Qed.

Lemma hstack_int_int (y z : list Z) :
  hstack [Some (ArrInt y); Some (ArrInt z)] = Ok (ArrInt (y ++ z)).
Proof.
  unfold hstack, concatenate0; simpl.
  rewrite app_nil_r, <- map_app, map_map. simpl. by rewrite map_id.
Qed.

(** What numpy can raise *)

Lemma concatenate0_raise arrs e : concatenate0 arrs = Raise e -> e = ValueError.
Proof.
  unfold concatenate0. destruct arrs as [|a l]; [congruence|].
  repeat match goal with |- context [if ?c then _ else _] => destruct c end;
    congruence.
Qed.

Lemma concatenate1_raise arrs e : concatenate1 arrs = Raise e -> e = ValueError.
Proof.
  unfold concatenate1. destruct arrs as [|a l]; [congruence|].
  repeat match goal with |- context [if ?c then _ else _] => destruct c end;
    congruence.
Qed.

Lemma vstack_raise l e : vstack l = Raise e -> e = ValueError.
Proof. apply concatenate0_raise. Qed.

Lemma hstack_raise l e : hstack l = Raise e -> e = ValueError.
Proof.
  unfold hstack. destruct (map atleast_1d l) as [|a arrs].
  - apply concatenate1_raise.
  - destruct (Nat.eqb (ndim a) 1);
      [apply concatenate0_raise | apply concatenate1_raise].
Qed.

Lemma ndim_atleast_2d a : ndim (atleast_2d a) = 2.
Proof. by destruct a. Qed.

Lemma width_atleast_2d a : width (atleast_2d a) = width a.
Proof. by destruct a. Qed.

Lemma ndim_cases a : ndim a = 1 \/ ndim a = 2.
Proof. destruct a; auto. Qed.

(** [vstack([A, A])] raises nothing. *)
Lemma vstack_twice_ok a : exists c, vstack [a; a] = Ok c.
Proof.
  unfold vstack, concatenate0. cbn [map forallb].
  rewrite !Nat.eqb_refl, ndim_atleast_2d. cbn [andb Nat.eqb]. eauto.
Qed.

Lemma vstack_twice_raise a e : vstack [a; a] = Raise e -> False.
Proof. destruct (vstack_twice_ok a) as [c ->]. discriminate. Qed.

(** [vstack([G, A, A])] raises exactly when [G] and [A] differ in their
    number of columns. *)
Lemma vstack_G_A_A_ok G_ A_ :
  width G_ = width A_ -> exists c, vstack [G_; A_; A_] = Ok c.
Proof.
  intros H. unfold vstack, concatenate0. cbn [map forallb].
  rewrite !ndim_atleast_2d, !width_atleast_2d, <- H, !Nat.eqb_refl.
  cbn [andb Nat.eqb]. eauto.
Qed.

Lemma vstack_G_A_A_raise G_ A_ e :
  vstack [G_; A_; A_] = Raise e -> width G_ <> width A_.
Proof.
  intros E H. destruct (vstack_G_A_A_ok G_ A_ H) as [c Hc]. congruence.
Qed.

(** [hstack([v, b])] on a one-dimensional [v] raises exactly when [b] has
    two dimensions. *)
Lemma hstack_1d_ok h_ b_ :
  ndim h_ = 1 -> ndim (atleast_1d b_) = 1 ->
  exists c, hstack [Some h_; b_] = Ok c.
Proof.
  intros Hh Hb. unfold hstack, concatenate0. cbn [map atleast_1d forallb].
  rewrite Hh, Hb. cbn [andb Nat.eqb]. eauto.
Qed.

Lemma hstack_raise_2d h_ b_ e :
  hstack [Some h_; b_] = Raise e ->
  ndim h_ = 2 \/ exists a, b_ = Some a /\ ndim a = 2.
Proof.
  intros E.
  destruct (ndim_cases h_) as [Hh|Hh]; [|by left].
  destruct b_ as [a|].
  - destruct (ndim_cases a) as [Ha|Ha]; [|right; eauto].
    destruct (hstack_1d_ok h_ (Some a) Hh Ha) as [c Hc]. congruence.
  - destruct (hstack_1d_ok h_ None Hh eq_refl) as [c Hc]. congruence.
Qed.

(** The sentinel block [-__infty * ones(m)] is [m] copies of [-1e10]. *)
Lemma minus_infty_block m :
  scale (PrimFloat.opp __infty) (ones m) = repeat (-1e10)%float m.
Proof. induction m as [|m IH]; simpl; [done|]. f_equal. exact IH. Qed.

(** The counter cell after the solver has written into it. *)
Lemma lookup_counter (σ : list ndarray) nb c k :
  σ !! nb = Some (ArrInt [c]) ->
  alter (setitem0 k) nb σ !! nb = Some (ArrInt [k]).
Proof. intros H. rewrite list_lookup_alter_eq, H. reflexivity. Qed.

Ltac solve_lookup :=
  cbn [heap options log];
  repeat first
    [ eassumption
    | apply lookup_fresh
    | apply lookup_app_l_Some
    | eapply lookup_counter ].

Ltac solve_prim :=
  first
    [ apply deref_ok; solve_lookup
    | apply value_ok; solve_lookup
    | apply attr_ok; solve_lookup
    | reflexivity ].

Ltac step :=
  rewrite ?vstack_twice, ?hstack_pair, ?hstack_pair_None;
  try rewrite vstack_G_A_A by assumption;
  lazymatch goal with
  | |- ((_ ≫= _) ≫= _) _ = _ => apply bind_assoc_eq
  | |- (_ ≫= _) _ = _ =>
      eapply bind_ok_eq; [ solve_prim | cbn beta; cbn [heap options log] ]
  end.

(** ** The four configurations in closed form *)

Section Closed.

Context (B : Backend).

Ltac start_run :=
  unfold qpoases_solve_qp;
  lazymatch goal with
  | |- context [match ?iv with Some _ => warn _ | None => _ end] =>
      destruct iv
  end;
  do 2 step; cbv zeta; repeat step;
  repeat first
    [ rewrite bool_decide_true by done
    | rewrite bool_decide_false by (intros ?; done) ];
  cbn [orb]; repeat step.

Ltac finish_run :=
  repeat step;
  rewrite ?alter_fresh;
  cbn [warm_start_warning app];
  rewrite <- ?app_assoc; reflexivity.

Lemma run_neither P q h b initvals s P_ :
  heap s !! P = Some P_ ->
  qpoases_solve_qp B P q None h None b initvals s
  = bounded_run B s initvals (shape0 P_) P q.
Proof.
  intros HP. unfold bounded_run.
  start_run.
  all: destruct (initB B _ _ _ _ _ _ _) as [[s2 rv] k].
  all: finish_run.
Qed.

Ltac finish_constrained :=
  unfold constrained_run, pyref, loc; cbn [shape0];
  let s2 := fresh "s2" in
  let rv := fresh "rv" in
  let k := fresh "k" in
  lazymatch goal with
  | |- context [init ?B ?a ?b ?c ?d ?e ?f ?g ?h ?i ?j] =>
      destruct (init B a b c d e f g h i j) as [[s2 rv] k]
  end;
  repeat step;
  unfold cap_warning;
  destruct (ReturnValue_eqb rv MAX_NWSR_REACHED);
  finish_run.

(** Inequality only: [C = G], [lb_C = None], [ub_C = h]. *)
Lemma run_G_only P q g h b initvals s P_ G_ :
  heap s !! P = Some P_ ->
  heap s !! g = Some G_ ->
  qpoases_solve_qp B P q (Some g) h None b initvals s
  = constrained_run B s initvals (shape0 P_) P q g None h
      (heap s ++ [ArrInt [100%Z]]) (shape0 G_).
Proof.
  intros HP HG.
  start_run.
  all: finish_constrained.
Qed.

(** Equality only: [C = vstack([A, A])], [lb_C = h], [ub_C = h]. *)
Lemma run_A_only P q h a b initvals s P_ Am :
  heap s !! P = Some P_ ->
  heap s !! a = Some (Arr2 Am) ->
  let C_ := Arr2 (Matrix (ncols Am) (mrows Am ++ mrows Am)) in
  let h1 := heap s ++ [ArrInt [100%Z]] in
  qpoases_solve_qp B P q None h (Some a) b initvals s
  = constrained_run B s initvals (shape0 P_) P q (length h1) h h
      (h1 ++ [C_]) (shape0 C_).
Proof.
  intros HP HA C_ h1. subst C_ h1.
  start_run.
  all: finish_constrained.
Qed.

(** Both: [C = vstack([G, A, A])],
    [lb_C = hstack([-__infty * ones(h.shape[0]), b])],
    [ub_C = hstack([h, b])]. *)
Lemma run_both P q g hl a bl initvals s P_ Gm Am hv bv :
  heap s !! P = Some P_ ->
  heap s !! g = Some (Arr2 Gm) ->
  heap s !! a = Some (Arr2 Am) ->
  heap s !! hl = Some (Arr1 hv) ->
  heap s !! bl = Some (Arr1 bv) ->
  ncols Gm = ncols Am ->
  let C_ := Arr2 (Matrix (ncols Gm) (mrows Gm ++ mrows Am ++ mrows Am)) in
  let lb_C_ := Arr1 (scale (PrimFloat.opp __infty) (ones (length hv)) ++ bv) in
  let ub_C_ := Arr1 (hv ++ bv) in
  let h1 := heap s ++ [ArrInt [100%Z]] in
  let h2 := h1 ++ [C_] in
  let h3 := h2 ++ [lb_C_] in
  qpoases_solve_qp B P q (Some g) (Some hl) (Some a) (Some bl) initvals s
  = constrained_run B s initvals (shape0 P_) P q
      (length h1) (Some (length h2)) (Some (length h3))
      (h3 ++ [ub_C_]) (shape0 C_).
Proof.
  intros HP HG HA Hh Hb Hc C_ lb_C_ ub_C_ h1 h2 h3.
  subst C_ lb_C_ ub_C_ h1 h2 h3.
  start_run.
  all: finish_constrained.
Qed.

(** Both, but [b] omitted: [hstack] builds object arrays ending in [None]
    and the adapter passes them on. *)
Lemma run_both_without_b P q g hl a initvals s P_ Gm Am hv :
  heap s !! P = Some P_ ->
  heap s !! g = Some (Arr2 Gm) ->
  heap s !! a = Some (Arr2 Am) ->
  heap s !! hl = Some (Arr1 hv) ->
  ncols Gm = ncols Am ->
  let C_ := Arr2 (Matrix (ncols Gm) (mrows Gm ++ mrows Am ++ mrows Am)) in
  let lb_C_ :=
    ArrObj (map Some (scale (PrimFloat.opp __infty) (ones (length hv)))
              ++ [None]) in
  let ub_C_ := ArrObj (map Some hv ++ [None]) in
  let h1 := heap s ++ [ArrInt [100%Z]] in
  let h2 := h1 ++ [C_] in
  let h3 := h2 ++ [lb_C_] in
  qpoases_solve_qp B P q (Some g) (Some hl) (Some a) None initvals s
  = constrained_run B s initvals (shape0 P_) P q
      (length h1) (Some (length h2)) (Some (length h3))
      (h3 ++ [ub_C_]) (shape0 C_).
Proof.
  intros HP HG HA Hh Hc C_ lb_C_ ub_C_ h1 h2 h3.
  subst C_ lb_C_ ub_C_ h1 h2 h3.
  start_run.
  all: finish_constrained.
Qed.

(** Calls that numpy or Python reject before any solver is built. *)

Lemma run_both_mismatch P q g h a b initvals s P_ Gm Am :
  heap s !! P = Some P_ ->
  heap s !! g = Some (Arr2 Gm) ->
  heap s !! a = Some (Arr2 Am) ->
  ncols Gm <> ncols Am ->
  exists s',
    qpoases_solve_qp B P q (Some g) h (Some a) b initvals s
    = (Raise ValueError, s').
Proof.
  intros HP HG HA Hc.
  destruct initvals; eexists; unfold qpoases_solve_qp.
  all: do 2 step; cbv zeta; repeat step.
  all: rewrite (vstack_G_A_A_mismatch Gm Am Hc).
  all: repeat (apply bind_assoc_eq).
  all: apply bind_raise; reflexivity.
Qed.

Lemma run_both_without_h P q g a b initvals s P_ Gm Am :
  heap s !! P = Some P_ ->
  heap s !! g = Some (Arr2 Gm) ->
  heap s !! a = Some (Arr2 Am) ->
  ncols Gm = ncols Am ->
  exists s',
    qpoases_solve_qp B P q (Some g) None (Some a) b initvals s
    = (Raise AttributeError, s').
Proof.
  intros HP HG HA Hc.
  destruct initvals; eexists; unfold qpoases_solve_qp.
  all: do 2 step; cbv zeta; repeat step.
  all: repeat (apply bind_assoc_eq).
  all: apply bind_raise; reflexivity.
Qed.

Lemma run_dangling_P P q G h A b initvals s :
  heap s !! P = None ->
  exists s',
    qpoases_solve_qp B P q G h A b initvals s = (Raise Unsupported, s').
Proof.
  intros HP.
  destruct initvals; eexists; unfold qpoases_solve_qp.
  all: step.
  all: apply bind_raise; apply deref_dangling; exact HP.
Qed.

(** Both, on arrays of any dtype that numpy stacks. *)
Lemma run_both_stacked P q g hl a bl initvals s P_ G_ A_ h_ b_ C_ lb_C_ ub_C_ :
  heap s !! P = Some P_ ->
  heap s !! g = Some G_ ->
  heap s !! a = Some A_ ->
  heap s !! hl = Some h_ ->
  heap s !! bl = Some b_ ->
  vstack [G_; A_; A_] = Ok C_ ->
  hstack [Some (Arr1 (scale (PrimFloat.opp __infty) (ones (shape0 h_))));
          Some b_] = Ok lb_C_ ->
  hstack [Some h_; Some b_] = Ok ub_C_ ->
  let h1 := heap s ++ [ArrInt [100%Z]] in
  let h2 := h1 ++ [C_] in
  let h3 := h2 ++ [lb_C_] in
  qpoases_solve_qp B P q (Some g) (Some hl) (Some a) (Some bl) initvals s
  = constrained_run B s initvals (shape0 P_) P q
      (length h1) (Some (length h2)) (Some (length h3))
      (h3 ++ [ub_C_]) (shape0 C_).
Proof.
  intros HP HG HA Hh Hb Hv Hl Hu h1 h2 h3. subst h1 h2 h3.
  start_run.
  all: rewrite Hv; repeat step.
  all: rewrite Hl; repeat step.
  all: rewrite Hu; repeat step.
  all: finish_constrained.
Qed.

(** Both, with a two-dimensional [b]: [hstack] rejects it. *)
Lemma run_both_2d_b P q g hl a bl initvals s P_ G_ A_ h_ b_ C_ :
  heap s !! P = Some P_ ->
  heap s !! g = Some G_ ->
  heap s !! a = Some A_ ->
  heap s !! hl = Some h_ ->
  heap s !! bl = Some b_ ->
  vstack [G_; A_; A_] = Ok C_ ->
  ndim b_ = 2 ->
  qpoases_solve_qp B P q (Some g) (Some hl) (Some a) (Some bl) initvals s
  = (Raise ValueError,
     PyState (heap s ++ [ArrInt [100%Z]; C_]) (options s)
       (log s ++ warm_start_warning initvals)).
Proof.
  intros HP HG HA Hh Hb Hv Hn.
  destruct initvals; cbn [warm_start_warning]; rewrite ?app_nil_r;
    unfold qpoases_solve_qp.
  all: do 2 step; cbv zeta; repeat step.
  all: rewrite Hv; repeat step.
  all: repeat (apply bind_assoc_eq).
  all: apply bind_raise.
  all: unfold hstack, concatenate0; cbn [map atleast_1d ndim Nat.eqb forallb].
  all: rewrite Hn; cbn [Nat.eqb andb lift].
  all: by rewrite <- app_assoc.
Qed.

End Closed.

(** ** Weakest preconditions *)

Section WP.

Context {A B : Type}.

Lemma wp_bind (m : M A) (f : A -> M B) s Q :
  wp m s (fun r s' =>
            match r with
            | Ok a => wp (f a) s' Q
            | Raise e => Q (Raise e) s'
            end) ->
  wp (m ≫= f) s Q.
Proof.
  unfold wp, mbind, M_bind. destruct (m s) as [[a|e] s']; simpl; auto.
Qed.

Lemma wp_lift (r : result A) s Q :
  match r with
  | Ok a => Q (Ok a) s
  | Raise e => Q (Raise e) s
  end -> wp (lift r) s Q.
Proof. unfold wp, lift; simpl. by destruct r. Qed.

End WP.

Lemma wp_deref l s Q :
  (forall a, heap s !! l = Some a -> Q (Ok a) s) ->
  (heap s !! l = None -> Q (Raise Unsupported) s) ->
  wp (deref l) s Q.
Proof. intros H1 H2. unfold wp, deref. destruct (heap s !! l); simpl; auto. Qed.

Lemma wp_value r s Q :
  (forall a, (r ≫= fun l => heap s !! l) = a ->
             (r = None \/ is_Some a) -> Q (Ok a) s) ->
  (forall l, r = Some l -> heap s !! l = None -> Q (Raise Unsupported) s) ->
  wp (value r) s Q.
Proof.
  intros H1 H2. destruct r as [l|]; simpl.
  - unfold wp, mbind, M_bind, deref.
    destruct (heap s !! l) as [a|] eqn:E; simpl.
    + apply H1; simpl; eauto.
    + by eapply H2.
  - apply H1; simpl; auto.
Qed.

Lemma wp_attr r s Q :
  (forall l a, r = Some l -> heap s !! l = Some a -> Q (Ok a) s) ->
  (forall l, r = Some l -> heap s !! l = None -> Q (Raise Unsupported) s) ->
  (r = None -> Q (Raise AttributeError) s) ->
  wp (attr r) s Q.
Proof.
  intros H1 H2 H3. destruct r as [l|]; simpl.
  - apply wp_deref; eauto.
  - by apply H3.
Qed.

Lemma wp_total {A} (m : M A) s r s' (Q : result A -> pystate -> Prop) :
  m s = (r, s') -> Q r s' -> wp m s Q.
Proof. intros H HQ. unfold wp. by rewrite H. Qed.

Lemma prefix_alter {A} (f : A -> A) (l k : list A) i :
  length l <= i -> l `prefix_of` k -> l `prefix_of` alter f i k.
Proof.
  intros Hi [k' ->].
  replace i with (length l + (i - length l)) by lia.
  rewrite alter_app_r. by apply prefix_app_r.
Qed.

Lemma lookup_end {A} (l : list A) : l !! length l = None.
Proof. by apply lookup_ge_None_2. Qed.

Ltac solve_prefix :=
  cbn [heap options log];
  repeat first
    [ reflexivity
    | apply prefix_app_r
    | apply prefix_alter; [ rewrite ?length_app; cbn [length]; lia | ] ].

Ltac wp_step :=
  cbn beta iota; cbn [heap options log];
  lazymatch goal with
  | |- wp (_ ≫= _) _ _ => apply wp_bind
  | |- wp (deref _) _ _ => apply wp_deref; [ intros ? ? | intros ? ]
  | |- wp (value _) _ _ => apply wp_value; [ intros ? ? ? | intros ? ? ? ]
  | |- wp (attr _) _ _ =>
      apply wp_attr; [ intros ? ? ? ? | intros ? ? ? | intros ? ]
  | |- wp (lift ?r) _ _ =>
      apply wp_lift; let E := fresh "E" in destruct r eqn:E
  | |- wp (if ?b then _ else _) _ _ =>
      let E := fresh "E" in destruct b eqn:E
  | |- wp (match ?x with _ => _ end) _ _ =>
      let E := fresh "E" in destruct x eqn:E
  | |- wp _ _ _ => eapply wp_total; [ reflexivity | ]
  end.

Lemma has_cons_None :
  bool_decide (@None loc <> None) || bool_decide (@None loc <> None) = false.
Proof. reflexivity. Qed.

Lemma has_cons_G (g : loc) (A : pyref) :
  bool_decide (Some g <> None) || bool_decide (A <> None) = true.
Proof. reflexivity. Qed.

Lemma has_cons_A (G : pyref) (a : loc) :
  bool_decide (G <> None) || bool_decide (Some a <> None) = true.
Proof. by rewrite orb_true_r. Qed.

Lemma getitem0_counter z : getitem0 (ArrInt [z]) = Ok z.
Proof. reflexivity. Qed.

(** Hypotheses left by the walk that cannot hold. *)
Ltac absurd_leaf :=
  cbn [heap options log] in *;
  match goal with
  | E : bool_decide (None <> None) || bool_decide (None <> None) = true
    |- _ => rewrite has_cons_None in E; discriminate E
  | E : bool_decide (Some _ <> None) || bool_decide (_ <> None) = false
    |- _ => rewrite has_cons_G in E; discriminate E
  | E : bool_decide (_ <> None) || bool_decide (Some _ <> None) = false
    |- _ => rewrite has_cons_A in E; discriminate E
  | H : alter (setitem0 _) (length ?l) _ !! length ?l = None |- _ =>
      erewrite lookup_counter in H by solve_lookup; discriminate H
  | H : alter (setitem0 _) (length ?l) _ !! length ?l = Some ?a,
    E : getitem0 ?a = Raise _ |- _ =>
      erewrite lookup_counter in H by solve_lookup;
      injection H as <-; discriminate E
  end.

Lemma log_snoc {A} (l0 new l : list A) e :
  l = l0 ++ new -> l ++ [e] = l0 ++ (new ++ [e]).
Proof. intros ->. by rewrite app_assoc. Qed.

Lemma log_same {A} (l0 : list A) : l0 = l0 ++ [].
Proof. by rewrite app_nil_r. Qed.

Ltac solve_log :=
  repeat first [ apply log_same | apply log_snoc ].

Lemma cap_warning_true status k (g : event) :
  ReturnValue_eqb status MAX_NWSR_REACHED = true ->
  [Warning (max_nwsr_msg k); g] = cap_warning status k ++ [g].
Proof. intros E. unfold cap_warning. by rewrite E. Qed.

Lemma cap_warning_false status k (g : event) :
  ReturnValue_eqb status MAX_NWSR_REACHED = false ->
  [g] = cap_warning status k ++ [g].
Proof. intros E. unfold cap_warning. by rewrite E. Qed.

Ltac solve_events :=
  cbn [warm_start_warning app];
  repeat (apply (f_equal2 cons); [ reflexivity | ]);
  first
    [ reflexivity
    | apply cap_warning_true; assumption
    | apply cap_warning_false with (k := 0%Z); assumption ].

Ltac solve_session :=
  unfold solver_session;
  do 3 eexists;
  split; [ eassumption | ];
  split; [ apply lookup_end | ];
  split;
  [ | first
        [ left; split; [ reflexivity | ]; split; reflexivity
        | right; split; [ first [ by left | by right ] | ];
          do 5 eexists; split; [ | solve_events ]; solve_lookup ] ];
  [ solve_lookup ].

(** The counter read back for the warning is the one the solver wrote. *)
Ltac read_counter :=
  repeat match goal with
  | H : alter (setitem0 ?z) (length ?l) _ !! length ?l = Some ?a,
    E : getitem0 ?a = Ok ?k |- _ =>
      erewrite lookup_counter in H by solve_lookup;
      injection H as <-; rewrite getitem0_counter in E;
      injection E as <-
  end.

Ltac solve_leaf :=
  first
    [ absurd_leaf
    | cbn [heap options log] in *;
      read_counter;
      rewrite ?alter_fresh;
      unfold call_post; cbn [heap options log];
      split; [ reflexivity | ];
      split; [ solve_prefix | ];
      eexists; split; [ solve_log | ];
      cbn [warm_start_warning app];
      first
        [ reflexivity
        | do 2 eexists; split; [ reflexivity | ];
          split; [ apply lookup_fresh | ];
          solve_session ] ].

Section General.

Context (B : Backend).

Lemma call_holds P q G h A b initvals s :
  wp (qpoases_solve_qp B P q G h A b initvals) s
     (call_post P q G A initvals s).
Proof.
  unfold qpoases_solve_qp.
  repeat wp_step.
  all: cbn beta iota.
  all: solve_leaf.
Qed.

Lemma call_spec P q G h A b initvals s r s' :
  qpoases_solve_qp B P q G h A b initvals s = (r, s') ->
  call_post P q G A initvals s r s'.
Proof.
  intros H. pose proof (call_holds P q G h A b initvals s) as W.
  unfold wp in W. by rewrite H in W.
Qed.

End General.

(** ** The log is write-only *)

Section Oblivious.

Context {A B : Type}.

Lemma oblivious_bind (m : M A) (f : A -> M B) :
  oblivious m -> (forall a, oblivious (f a)) -> oblivious (m ≫= f).
Proof.
  intros Hm Hf pre s. unfold mbind, M_bind.
  rewrite Hm. destruct (m s) as [[a|e] s1]; simpl; [apply Hf | reflexivity].
Qed.

Lemma oblivious_mret (a : A) : oblivious (mret a : M A).
Proof. by intros pre s. Qed.

Lemma oblivious_raise e : oblivious (raise e : M A).
Proof. by intros pre s. Qed.

Lemma oblivious_lift (r : result A) : oblivious (lift r).
Proof. by intros pre s. Qed.

End Oblivious.

Lemma oblivious_emit e : oblivious (emit e).
Proof. intros pre s. unfold emit, relog; simpl. by rewrite app_assoc. Qed.

Lemma oblivious_alloc a : oblivious (alloc a).
Proof. by intros pre s. Qed.

Lemma oblivious_deref l : oblivious (deref l).
Proof. intros pre s. unfold deref; simpl. by destruct (heap s !! l). Qed.

Lemma oblivious_value r : oblivious (value r).
Proof.
  destruct r as [l|]; simpl.
  - apply oblivious_bind; [apply oblivious_deref|]. intros a. apply oblivious_mret.
  - apply oblivious_mret.
Qed.

Lemma oblivious_attr r : oblivious (attr r).
Proof. destruct r; [apply oblivious_deref | apply oblivious_raise]. Qed.

Lemma oblivious_get_heap : oblivious get_heap.
Proof. by intros pre s. Qed.

Lemma oblivious_get_options : oblivious get_options.
Proof. by intros pre s. Qed.

Lemma oblivious_update l f : oblivious (update l f).
Proof. by intros pre s. Qed.

Ltac oblivious_step :=
  lazymatch goal with
  | |- oblivious (_ ≫= _) => apply oblivious_bind; [ | intros ? ]
  | |- oblivious (mret _) => apply oblivious_mret
  | |- oblivious (raise _) => apply oblivious_raise
  | |- oblivious (lift _) => apply oblivious_lift
  | |- oblivious (emit _) => apply oblivious_emit
  | |- oblivious (warn _) => apply oblivious_emit
  | |- oblivious (alloc _) => apply oblivious_alloc
  | |- oblivious (deref _) => apply oblivious_deref
  | |- oblivious (value _) => apply oblivious_value
  | |- oblivious (attr _) => apply oblivious_attr
  | |- oblivious get_heap => apply oblivious_get_heap
  | |- oblivious get_options => apply oblivious_get_options
  | |- oblivious (update _ _) => apply oblivious_update
  | |- oblivious (if ?b then _ else _) => destruct b
  | |- oblivious (match ?x with _ => _ end) => destruct x
  end.

Section Adapter_oblivious.

Context (B : Backend).

Lemma adapter_oblivious P q G h A b initvals :
  oblivious (qpoases_solve_qp B P q G h A b initvals).
Proof. unfold qpoases_solve_qp. repeat oblivious_step. Qed.

(** A call with [initvals] is the call without it, started after the
    warning has been logged. *)
Lemma initvals_only_warns P q G h A b l s :
  qpoases_solve_qp B P q G h A b (Some l) s
  = qpoases_solve_qp B P q G h A b None
      (PyState (heap s) (options s) (log s ++ [Warning warm_start_msg])).
Proof. reflexivity. Qed.

End Adapter_oblivious.

Lemma emitted_app s s' new : log s' = log s ++ new -> emitted s s' = new.
Proof. intros H. unfold emitted. rewrite H. apply drop_app_length. Qed.

Lemma max_nwsr_msg_not_warm_start k : max_nwsr_msg k <> warm_start_msg.
Proof. discriminate. Qed.

Lemma warnings_app l k : warnings (l ++ k) = warnings l ++ warnings k.
Proof.
  induction l as [|[] l IH]; simpl; rewrite ?IH; reflexivity.
Qed.

Lemma solver_calls_app l k :
  solver_calls (l ++ k) = solver_calls l ++ solver_calls k.
Proof.
  induction l as [|[] l IH]; simpl; rewrite ?IH; reflexivity.
Qed.

Lemma solver_calls_warm_start iv : solver_calls (warm_start_warning iv) = [].
Proof. by destruct iv. Qed.

Lemma solver_calls_cap status k : solver_calls (cap_warning status k) = [].
Proof. unfold cap_warning. by destruct (ReturnValue_eqb _ _). Qed.

Section Facts.

Context (B : Backend).


End Facts.

(** ** The constraint block passed to the solver *)

Section Block.

Context (B : Backend).

Lemma constrained_run_events s initvals n P q C lb_C ub_C σ nC :
  exists status k x,
    (constrained_run B s initvals n P q C lb_C ub_C σ nC).1 = Ok (Some x) /\
    emitted s (constrained_run B s initvals n P q C lb_C ub_C σ nC).2
    = warm_start_warning initvals
      ++ [New_QProblem n nC; SetOptions (options s);
          Init P q C None None lb_C ub_C (length (heap s)) σ status]
      ++ cap_warning status k ++ [GetPrimalSolution x].
Proof.
  unfold constrained_run.
  destruct (init B _ _ _ _ _ _ _ _ _ _) as [[s2 status] k].
  exists status, k. eexists. split; [reflexivity|].
  by apply emitted_app.
Qed.

Lemma init_in_session (ws rest : list event) e1 e2 e3 :
  e3 ∈ ws ++ [e1; e2; e3] ++ rest.
Proof.
  apply elem_of_app; right. apply elem_of_app; left.
  do 2 apply list_elem_of_further. apply list_elem_of_here.
Qed.

(** What the equality-only branch passes, whatever [h] and [b] are: the
    block [vstack([A, A])], and [h] for both constraint bounds. *)
Lemma equality_only_block P q h a b initvals s P_ Am :
  heap s !! P = Some P_ ->
  heap s !! a = Some (Arr2 Am) ->
  exists C nb_wsr σ status,
    Init P q C None None h h nb_wsr σ status
      ∈ emitted s (qpoases_solve_qp B P q None h (Some a) b initvals s).2 /\
    σ !! C = Some (Arr2 (Matrix (ncols Am) (mrows Am ++ mrows Am))).
Proof.
  intros HP HA. rewrite (run_A_only B P q h a b initvals s P_ Am HP HA).
  cbv zeta.
  match goal with
  | |- context [constrained_run B s initvals ?n P q ?C ?lb ?ub ?σ ?nC] =>
      destruct (constrained_run_events s initvals n P q C lb ub σ nC)
        as (status & k & x & _ & ->)
  end.
  do 4 eexists. split; [apply init_in_session|]. apply lookup_fresh.
Qed.

End Block.

(** C9.  In the inequality-only configuration ([G] and [h] given, [A]
    absent) the solver is initialised with the constraint block [G] itself
    (the very array [g] the caller passed, holding what it held), with no
    lower constraint bound ([None]) and with [h] itself as the upper
    constraint bound. *)
Theorem C9_inequality_only_block
    (B : Backend) (P q g hl : loc) (b initvals : pyref) (s : pystate)
    (P_ G_ h_ : ndarray) :
  heap s !! P = Some P_ ->
  heap s !! g = Some G_ ->
  heap s !! hl = Some h_ ->
  exists nb_wsr σ status,
    Init P q g None None None (Some hl) nb_wsr σ status
      ∈ emitted s
          (qpoases_solve_qp B P q (Some g) (Some hl) None b initvals s).2 /\
    σ !! g = Some G_ /\
    σ !! hl = Some h_.
Proof.
  intros HP HG Hh.
  rewrite (run_G_only B P q g (Some hl) b initvals s P_ G_ HP HG).
  match goal with
  | |- context [constrained_run B s initvals ?n P q ?C ?lb ?ub ?σ ?nC] =>
      destruct (constrained_run_events B s initvals n P q C lb ub σ nC)
        as (status & k & x & _ & ->)
  end.
  do 3 eexists. split; [apply init_in_session|].
  split; by apply lookup_app_l_Some.
Qed.

Lemma C9_inequality_only_block_witness :
  exists nb_wsr σ status,
    Init 0 1 4 None None None (Some 5) nb_wsr σ status
      ∈ emitted (import_module caller_arrays)
          (qpoases_solve_qp (stub SUCCESSFUL_RETURN 1) 0 1 (Some 4) (Some 5)
             None None None (import_module caller_arrays)).2 /\
    σ !! 4 = Some (Arr2 (Matrix 2 [[-1; 0]]%float)) /\
    σ !! 5 = Some (Arr1 [0]%float).
Proof.
  exact (C9_inequality_only_block (stub SUCCESSFUL_RETURN 1) 0 1 4 5 None None
           (import_module caller_arrays) _ _ _ eq_refl eq_refl eq_refl).
Defined.

(** C3.  With both [G] ([m] rows) and [A] ([meq] rows) given, the solver is
    initialised with a block [C] whose rows are the rows of [G] followed by
    the rows of [A] twice ([m + 2 * meq] rows), with the upper bound
    [hstack([h, b])] (its first [m] entries are [h], the rest is [b]) and
    with the lower bound made of [m] copies of [-1e10] followed by [b]. *)
Theorem C3_both_block
    (B : Backend) (P q g hl a bl : loc) (initvals : pyref) (s : pystate)
    (P_ : ndarray) (Gm Am : matrix) (hv bv : vector) :
  heap s !! P = Some P_ ->
  heap s !! g = Some (Arr2 Gm) ->
  heap s !! a = Some (Arr2 Am) ->
  heap s !! hl = Some (Arr1 hv) ->
  heap s !! bl = Some (Arr1 bv) ->
  ncols Gm = ncols Am ->
  length hv = length (mrows Gm) ->
  let m := length (mrows Gm) in
  let meq := length (mrows Am) in
  exists C lb_C ub_C nb_wsr σ status rows lbv ubv,
    Init P q C None None (Some lb_C) (Some ub_C) nb_wsr σ status
      ∈ emitted s
          (qpoases_solve_qp B P q (Some g) (Some hl) (Some a) (Some bl)
             initvals s).2 /\
    σ !! C = Some (Arr2 (Matrix (ncols Gm) rows)) /\
    rows = mrows Gm ++ mrows Am ++ mrows Am /\
    length rows = m + 2 * meq /\
    σ !! ub_C = Some (Arr1 ubv) /\
    ubv = hv ++ bv /\ take m ubv = hv /\ drop m ubv = bv /\
    σ !! lb_C = Some (Arr1 lbv) /\
    lbv = repeat (-1e10)%float m ++ bv /\
    take m lbv = repeat (-1e10)%float m /\ drop m lbv = bv.
Proof.
  intros HP HG HA Hh Hb Hc Hm m meq.
  rewrite (run_both B P q g hl a bl initvals s P_ Gm Am hv bv
             HP HG HA Hh Hb Hc).
  cbv zeta.
  match goal with
  | |- context [constrained_run B s initvals ?n P q ?C ?lb ?ub ?σ ?nC] =>
      destruct (constrained_run_events B s initvals n P q C lb ub σ nC)
        as (status & k & x & _ & ->)
  end.
  rewrite minus_infty_block, Hm. fold m.
  do 9 eexists.
  split; [apply init_in_session|].
  split; [solve_lookup|].
  split; [reflexivity|].
  split; [rewrite !length_app; lia|].
  split; [solve_lookup|].
  split; [reflexivity|].
  split; [by apply take_app_length'|].
  split; [by apply drop_app_length'|].
  split; [solve_lookup|].
  split; [reflexivity|].
  split; [apply take_app_length'|apply drop_app_length'];
    by rewrite repeat_length.
Qed.

Lemma C3_both_block_witness :
  exists C lb_C ub_C nb_wsr σ status rows lbv ubv,
    Init 0 1 C None None (Some lb_C) (Some ub_C) nb_wsr σ status
      ∈ emitted (import_module caller_arrays)
          (qpoases_solve_qp (stub SUCCESSFUL_RETURN 1) 0 1
             (Some 4) (Some 5) (Some 2) (Some 3) None
             (import_module caller_arrays)).2 /\
    σ !! C = Some (Arr2 (Matrix 2 rows)) /\
    rows = [[-1; 0]; [1; 1]; [1; 1]]%float /\
    length rows = 1 + 2 * 1 /\
    σ !! ub_C = Some (Arr1 ubv) /\
    ubv = [0; 1]%float /\ take 1 ubv = [0]%float /\ drop 1 ubv = [1]%float /\
    σ !! lb_C = Some (Arr1 lbv) /\
    lbv = [-1e10; 1]%float /\
    take 1 lbv = [-1e10]%float /\ drop 1 lbv = [1]%float.
Proof.
  exact (C3_both_block (stub SUCCESSFUL_RETURN 1) 0 1 4 5 2 3 None
           (import_module caller_arrays) _ _ _ _ _
           eq_refl eq_refl eq_refl eq_refl eq_refl eq_refl eq_refl).
Defined.

(** C5.  With both [G] ([m] rows) and [A] ([meq] rows) given, the two
    constraint bound vectors passed to [qp.init] have [m + meq] entries
    each while the block [C] has [m + 2 * meq] rows: the last [meq] rows of
    [C], the second copy of [A], have no entry in either bound vector. *)
Theorem C5_bounds_shorter_than_block
    (B : Backend) (P q g hl a bl : loc) (initvals : pyref) (s : pystate)
    (P_ : ndarray) (Gm Am : matrix) (hv bv : vector) :
  heap s !! P = Some P_ ->
  heap s !! g = Some (Arr2 Gm) ->
  heap s !! a = Some (Arr2 Am) ->
  heap s !! hl = Some (Arr1 hv) ->
  heap s !! bl = Some (Arr1 bv) ->
  ncols Gm = ncols Am ->
  length hv = length (mrows Gm) ->
  length bv = length (mrows Am) ->
  let m := length (mrows Gm) in
  let meq := length (mrows Am) in
  exists C lb_C ub_C nb_wsr σ status rows lbv ubv,
    Init P q C None None (Some lb_C) (Some ub_C) nb_wsr σ status
      ∈ emitted s
          (qpoases_solve_qp B P q (Some g) (Some hl) (Some a) (Some bl)
             initvals s).2 /\
    σ !! C = Some (Arr2 (Matrix (ncols Gm) rows)) /\
    σ !! lb_C = Some (Arr1 lbv) /\
    σ !! ub_C = Some (Arr1 ubv) /\
    length rows = m + 2 * meq /\
    length lbv = m + meq /\
    length ubv = m + meq /\
    forall i, i < meq ->
      rows !! (m + meq + i) = mrows Am !! i /\
      is_Some (rows !! (m + meq + i)) /\
      lbv !! (m + meq + i) = None /\
      ubv !! (m + meq + i) = None.
Proof.
  intros HP HG HA Hh Hb Hc Hm Hmeq m meq.
  rewrite (run_both B P q g hl a bl initvals s P_ Gm Am hv bv
             HP HG HA Hh Hb Hc).
  cbv zeta.
  match goal with
  | |- context [constrained_run B s initvals ?n P q ?C ?lb ?ub ?σ ?nC] =>
      destruct (constrained_run_events B s initvals n P q C lb ub σ nC)
        as (status & k & x & _ & ->)
  end.
  do 9 eexists.
  split; [apply init_in_session|].
  split; [solve_lookup|].
  split; [solve_lookup|].
  split; [solve_lookup|].
  assert (Hl : length (scale (PrimFloat.opp __infty) (ones (length hv)) ++ bv)
               = m + meq).
  { rewrite minus_infty_block, length_app, repeat_length. lia. }
  assert (Hu : length (hv ++ bv) = m + meq) by (rewrite length_app; lia).
  split; [rewrite !length_app; lia|].
  split; [exact Hl|].
  split; [exact Hu|].
  intros i Hi.
  assert (Hr : (mrows Gm ++ mrows Am ++ mrows Am) !! (m + meq + i)
               = mrows Am !! i).
  { rewrite lookup_app_r by lia. rewrite lookup_app_r by lia.
    f_equal. lia. }
  split; [exact Hr|].
  split; [rewrite Hr; apply lookup_lt_is_Some; lia|].
  split; apply lookup_ge_None_2; lia.
Qed.

Lemma C5_bounds_shorter_than_block_witness :
  exists C lb_C ub_C nb_wsr σ status rows lbv ubv,
    Init 0 1 C None None (Some lb_C) (Some ub_C) nb_wsr σ status
      ∈ emitted (import_module caller_arrays)
          (qpoases_solve_qp (stub SUCCESSFUL_RETURN 1) 0 1
             (Some 4) (Some 5) (Some 2) (Some 3) None
             (import_module caller_arrays)).2 /\
    σ !! C = Some (Arr2 (Matrix 2 rows)) /\
    σ !! lb_C = Some (Arr1 lbv) /\
    σ !! ub_C = Some (Arr1 ubv) /\
    length rows = 1 + 2 * 1 /\
    length lbv = 1 + 1 /\
    length ubv = 1 + 1 /\
    forall i, i < 1 ->
      rows !! (1 + 1 + i) = [[1; 1]]%float !! i /\
      is_Some (rows !! (1 + 1 + i)) /\
      lbv !! (1 + 1 + i) = None /\
      ubv !! (1 + 1 + i) = None.
Proof.
  exact (C5_bounds_shorter_than_block (stub SUCCESSFUL_RETURN 1)
           0 1 4 5 2 3 None (import_module caller_arrays) _ _ _ _ _
           eq_refl eq_refl eq_refl eq_refl eq_refl eq_refl eq_refl eq_refl).
Defined.

(** ** Calls on which the adapter departs from its documentation *)

(** C1.  The equality-only call [qpoases_solve_qp(P, q, A=A, b=b)] on the
    caller's arrays: the block is [A] stacked twice, but both constraint
    bounds passed to [qp.init] are [h], here [None], and not [b]
    (reference 3), which is passed nowhere. *)
Theorem C1_equality_only_passes_h_for_b :
  let s := import_module caller_arrays in
  let s' := (qpoases_solve_qp (stub SUCCESSFUL_RETURN 1) 0 1
               None None (Some 2) (Some 3) None s).2 in
  let σ := caller_arrays
           ++ [ArrInt [100%Z]; Arr2 (Matrix 2 [[1; 1]; [1; 1]]%float)] in
  emitted s s'
  = [New_QProblem 2 2; SetOptions (mkOptions NONE);
     Init 0 1 7 None None None None 6 σ SUCCESSFUL_RETURN;
     GetPrimalSolution 8].
Proof. vm_compute. reflexivity. Qed.

(** C2.  A call whose [qp.init] fails with a status other than the
    iteration cap: the adapter returns the zero-filled buffer it allocated,
    not [None], and reports nothing. *)
Theorem C2_failed_init_returns_a_vector :
  let s := import_module caller_arrays in
  let '(r, s') := qpoases_solve_qp (stub (RET 33) 0) 0 1
                    (Some 4) (Some 5) None None None s in
  r = Ok (Some 7) /\
  heap s' !! 7 = Some (Arr1 [0; 0]%float) /\
  emitted s s'
  = [New_QProblem 2 1; SetOptions (mkOptions NONE);
     Init 0 1 4 None None None (Some 5) 6
       (caller_arrays ++ [ArrInt [100%Z]]) (RET 33);
     GetPrimalSolution 7].
Proof. vm_compute. repeat split; reflexivity. Qed.

(** C4.  A call without constraints whose [qp.init] answers that the
    iteration cap was reached: the bounds-only branch drops the status and
    no warning is emitted. *)
Theorem C4_bounds_only_cap_not_reported :
  let s := import_module caller_arrays in
  let '(r, s') := qpoases_solve_qp (stub MAX_NWSR_REACHED 100) 0 1
                    None None None None None s in
  r = Ok (Some 7) /\
  warnings (emitted s s') = [] /\
  emitted s s'
  = [New_QProblemB 2; SetOptions (mkOptions NONE);
     InitB 0 1 None None 6 (caller_arrays ++ [ArrInt [100%Z]])
       MAX_NWSR_REACHED;
     GetPrimalSolution 7].
Proof. vm_compute. repeat split; reflexivity. Qed.

Section Departures.

Context (B : Backend).

(** No call returns [None]: a call that returns hands back a [float64]
    buffer, whatever status the solver answered. *)
Lemma never_returns_None P q G h A b initvals s r s' :
  qpoases_solve_qp B P q G h A b initvals s = (Ok r, s') ->
  exists x sol, r = Some x /\ heap s' !! x = Some (Arr1 sol).
Proof.
  intros H. apply call_spec in H as (_ & _ & new & _ & x & sol & ? & ? & _).
  eauto.
Qed.

(** The general-constrained branch does report the iteration cap, once,
    with the count found in the counter cell after [qp.init]. *)
Lemma constrained_cap_reported P q G h A b initvals s r s' :
  G <> None \/ A <> None ->
  qpoases_solve_qp B P q G h A b initvals s = (Ok r, s') ->
  exists C lb_C ub_C σ status k,
    Init P q C None None lb_C ub_C (length (heap s)) σ status
      ∈ emitted s s' /\
    warnings (emitted s s')
    = warnings (warm_start_warning initvals)
      ++ (if ReturnValue_eqb status MAX_NWSR_REACHED
          then [max_nwsr_msg k] else []).
Proof.
  intros Hc H.
  apply call_spec in H as (_ & _ & new & Hlog & x & sol & _ & _ & Hs).
  rewrite (emitted_app _ _ _ Hlog).
  destruct Hs as (P_ & σ & status & _ & _ & _ & [(-> & -> & _) | (_ & Hs)]).
  { by destruct Hc. }
  destruct Hs as (C & C_ & lb_C & ub_C & k & _ & ->).
  exists C, lb_C, ub_C, σ, status, k.
  split; [apply init_in_session|].
  rewrite !warnings_app. unfold cap_warning.
  destruct (ReturnValue_eqb status MAX_NWSR_REACHED); simpl;
    by rewrite ?app_nil_r.
Qed.

(** The bounds-only branch emits no warning of its own. *)
Lemma bounds_only_never_warns P q h b initvals s P_ :
  heap s !! P = Some P_ ->
  warnings (emitted s (qpoases_solve_qp B P q None h None b initvals s).2)
  = warnings (warm_start_warning initvals).
Proof.
  intros HP. rewrite (run_neither B P q h b initvals s P_ HP).
  unfold bounded_run.
  destruct (initB B _ _ _ _ _ _ _) as [[s2 status] k]. cbn [snd].
  erewrite emitted_app by reflexivity.
  rewrite warnings_app. simpl. by rewrite app_nil_r.
Qed.

End Departures.

(** ** Calls that are rejected *)

Lemma in_store_lt s r l :
  in_store s r = true -> r = Some l -> l < length (heap s).
Proof. intros H ->. by apply Nat.ltb_lt. Qed.

(** An array of the caller is found where it was, whatever the call has
    allocated since. *)
Lemma lookup_allocated {A} (l k : list A) i x :
  i < length l -> (l ++ k) !! i = x -> l !! i = x.
Proof. intros Hi <-. symmetry. by apply lookup_app_l. Qed.

(** The leaves of the walk, with every look-up brought back to the store
    the call started from. *)
Ltac store_bounds :=
  repeat match goal with
  | H : forall l : loc, Some ?x = Some l -> l < _ |- _ =>
      pose proof (H x eq_refl); clear H
  | H : forall l : loc, None = Some l -> l < _ |- _ => clear H
  end.

Ltac to_store :=
  repeat match goal with
  | H : (_ ++ _) !! _ = _ |- _ =>
      apply lookup_allocated in H;
        [ | rewrite ?length_app; cbn [length]; lia ]
  end.

Ltac norm_leaf :=
  cbn [heap options log] in *;
  repeat match goal with
  | E : ?x = Some _ |- _ => is_var x; subst x
  | E : ?x = None |- _ => is_var x; subst x
  | E : Some ?x = Some ?y |- _ => is_var y; injection E as E; subst y
  end;
  repeat match goal with
  | H : context [?r ≫= _] |- _ => is_var r; destruct r
  end;
  cbn [mbind option_bind] in *;
  store_bounds; to_store;
  repeat match goal with
  | H : None = None \/ _ |- _ => clear H
  | H : Some _ = None \/ is_Some _ |- _ =>
      destruct H as [H|[? H]]; [ discriminate H | ]
  | H : ?a = Some _ |- _ => is_var a; rewrite H in *; clear H; try clear a
  | H : None = ?a |- _ => is_var a; subst a
  end;
  repeat match goal with
  | H : ?t = Some ?a, H' : ?t = Some ?b |- _ =>
      assert (b = a) by congruence; subst b; clear H'
  end.

(** A reference of the caller that would refer to no array. *)
Ltac dangling :=
  exfalso;
  repeat match goal with
  | H : _ !! _ = Some _ |- _ => apply lookup_lt_Some in H
  end;
  match goal with
  | H : _ !! _ = None |- _ =>
      apply lookup_ge_None in H;
      rewrite ?length_alter, ?length_app in *; cbn [length] in *; lia
  end.

Ltac is_two_dimensional :=
  unfold two_dimensional;
  do 2 eexists; split; [ reflexivity | ]; split; eassumption.

Ltac solve_rejected :=
  cbn [rejection_post];
  split; [ done | ]; split; [ done | ];
  first
    [ right; split; reflexivity
    | left; split; [ reflexivity | ];
      first
        [ left; unfold widths_differ; do 4 eexists;
          split; [ reflexivity | ]; split; [ reflexivity | ];
          split; [ eassumption | ]; split; [ eassumption | ];
          eapply vstack_G_A_A_raise; eassumption
        | right; left; is_two_dimensional
        | right; right; is_two_dimensional ] ].

Ltac solve_rejection :=
  first
    [ absurd_leaf
    | exact I
    | norm_leaf;
      first
        [ done
        | dangling
        | match goal with
          | E : vstack [?a; ?a] = Raise _ |- _ =>
              destruct (vstack_twice_raise _ _ E)
          | E : vstack _ = Raise _ |- _ =>
              pose proof (vstack_raise _ _ E); subst; solve_rejected
          | E : hstack _ = Raise _ |- _ =>
              pose proof (hstack_raise _ _ E); subst;
              apply hstack_raise_2d in E as [E|(? & E & ?)];
              [ first [ discriminate E | solve_rejected ]
              | first [ discriminate E
                      | injection E as <-; solve_rejected ] ]
          end
        | solve_rejected ] ].

Section Rejection.

Context (B : Backend).

Lemma rejection_holds P q G h A b initvals s P_ :
  heap s !! P = Some P_ ->
  forallb (in_store s) [G; h; A; b] = true ->
  wp (qpoases_solve_qp B P q G h A b initvals) s
     (fun r _ => rejection_post s G h A b r).
Proof.
  intros HP Hst. cbn [forallb] in Hst.
  rewrite !andb_true_iff in Hst. destruct Hst as (HG & Hh & HA & Hb & _).
  pose proof (fun l => in_store_lt _ _ l HG) as HG'.
  pose proof (fun l => in_store_lt _ _ l Hh) as Hh'.
  pose proof (fun l => in_store_lt _ _ l HA) as HA'.
  pose proof (fun l => in_store_lt _ _ l Hb) as Hb'.
  clear HG Hh HA Hb.
  unfold qpoases_solve_qp.
  repeat wp_step.
  all: cbn beta iota.
  all: solve_rejection.
Qed.

Lemma rejection_spec P q G h A b initvals s P_ r s' :
  heap s !! P = Some P_ ->
  forallb (in_store s) [G; h; A; b] = true ->
  qpoases_solve_qp B P q G h A b initvals s = (r, s') ->
  rejection_post s G h A b r.
Proof.
  intros HP Hst H.
  pose proof (rejection_holds P q G h A b initvals s P_ HP Hst) as W.
  unfold wp in W. by rewrite H in W.
Qed.

End Rejection.

(** ** Every call *)

(** C6.  The arguments being [None] or arrays of the store: without [G]
    and [A] no constraint block is built (the call allocates the counter
    cell and the solution buffer, nothing else) and the bounds-only
    variant [QProblemB(n)] is used; with [G] or [A] the call uses the
    general-constrained variant [QProblem(n, C.shape[0])], unless both [G]
    and [A] are given and numpy or Python reject their shapes
    ([ValueError], [AttributeError]), and then no solver is used at all;
    in every configuration the variable bounds [lb] and [ub] passed to
    [init] are [None]. *)
Theorem C6_dispatch
    (B : Backend) (P q : loc) (G h A b initvals : pyref) (s : pystate)
    (P_ : ndarray) :
  heap s !! P = Some P_ ->
  forallb (in_store s) [G; h; A; b] = true ->
  let '(r, s') := qpoases_solve_qp B P q G h A b initvals s in
  (G = None /\ A = None ->
   exists x status,
     r = Ok (Some x) /\
     length (heap s') = length (heap s) + 2 /\
     solver_calls (emitted s s')
     = [New_QProblemB (shape0 P_); SetOptions (options s);
        InitB P q None None (length (heap s))
          (heap s ++ [ArrInt [100%Z]]) status;
        GetPrimalSolution x]) /\
  (G <> None \/ A <> None ->
   match r with
   | Ok v =>
       exists x C C_ lb_C ub_C σ status,
         v = Some x /\
         σ !! C = Some C_ /\
         solver_calls (emitted s s')
         = [New_QProblem (shape0 P_) (shape0 C_); SetOptions (options s);
            Init P q C None None lb_C ub_C (length (heap s)) σ status;
            GetPrimalSolution x]
   | Raise e =>
       G <> None /\ A <> None /\ rejected s G h A b e /\
       solver_calls (emitted s s') = []
   end).
Proof.
  intros HP Hst.
  destruct (qpoases_solve_qp B P q G h A b initvals s) as [r s'] eqn:E.
  pose proof (rejection_spec B _ _ _ _ _ _ _ _ _ _ _ HP Hst E) as Hrej.
  split.
  - intros [-> ->].
    rewrite (run_neither B P q h b initvals s P_ HP) in E.
    unfold bounded_run in E.
    destruct (initB B _ _ _ _ _ _ _) as [[s2 status] k].
    injection E as <- <-. do 2 eexists.
    split; [reflexivity|].
    split; [cbn [heap]; rewrite !length_app; simpl; lia|].
    erewrite emitted_app by reflexivity.
    rewrite solver_calls_app, solver_calls_warm_start. reflexivity.
  - intros Hc.
    apply call_spec in E as (_ & _ & new & Hlog & Hr).
    rewrite (emitted_app _ _ _ Hlog).
    destruct r as [v|e].
    + destruct Hr as (x & sol & -> & _ & Hs).
      destruct Hs as (P' & σ & status & HP' & _ & _ & Hs).
      assert (P' = P_) as -> by congruence.
      destruct Hs as [(-> & -> & _) | (_ & Hs)]; [by destruct Hc|].
      destruct Hs as (C & C_ & lb_C & ub_C & k & HC & ->).
      exists x, C, C_, lb_C, ub_C, σ, status.
      split; [reflexivity|]. split; [exact HC|].
      rewrite !solver_calls_app, solver_calls_warm_start, solver_calls_cap.
      reflexivity.
    + subst new. destruct Hrej as (HG & HA & Hrej).
      repeat split; try assumption. apply solver_calls_warm_start.
Qed.

Lemma C6_dispatch_witness :
  let s := import_module caller_arrays in
  let s' := (qpoases_solve_qp (stub SUCCESSFUL_RETURN 1) 0 1
               (Some 4) (Some 5) (Some 2) (Some 3) None s).2 in
  exists x C C_ lb_C ub_C σ status,
    Some 10 = Some x /\
    σ !! C = Some C_ /\
    solver_calls (emitted s s')
    = [New_QProblem 2 (shape0 C_); SetOptions (mkOptions NONE);
       Init 0 1 C None None lb_C ub_C 6 σ status;
       GetPrimalSolution x].
Proof.
  pose proof (C6_dispatch (stub SUCCESSFUL_RETURN 1) 0 1
                (Some 4) (Some 5) (Some 2) (Some 3) None
                (import_module caller_arrays) _ eq_refl eq_refl) as H.
  vm_compute in H. vm_compute. apply H. left. discriminate.
Defined.

(** C7.  Supplying [initvals] adds exactly one warning, the one saying
    that warm-start values are ignored, in front of what the same call
    without [initvals] emits; the result, the arrays and the options after
    the call are those of the call without [initvals]. *)
Theorem C7_initvals_ignored
    (B : Backend) (P q : loc) (G h A b : pyref) (l : loc) (s : pystate) :
  let '(r1, s1) := qpoases_solve_qp B P q G h A b (Some l) s in
  let '(r0, s0) := qpoases_solve_qp B P q G h A b None s in
  r1 = r0 /\
  heap s1 = heap s0 /\
  options s1 = options s0 /\
  emitted s s1 = Warning warm_start_msg :: emitted s s0 /\
  count_occ string_dec (warnings (emitted s s1)) warm_start_msg = 1 /\
  count_occ string_dec (warnings (emitted s s0)) warm_start_msg = 0.
Proof.
  rewrite initvals_only_warns.
  destruct s as [hp o lg]. cbn [heap options log].
  pose proof (adapter_oblivious B P q G h A b None (lg ++ [Warning warm_start_msg])
                (PyState hp o [])) as H1.
  pose proof (adapter_oblivious B P q G h A b None lg (PyState hp o [])) as H0.
  unfold relog in H1, H0. cbn [heap options log] in H1, H0.
  rewrite app_nil_r in H1, H0. rewrite H1, H0.
  destruct (qpoases_solve_qp B P q G h A b None (PyState hp o [])) as [r e] eqn:E.
  cbn [fst snd heap options log].
  assert (He0 : emitted (PyState hp o lg) (PyState (heap e) (options e) (lg ++ log e))
                = log e) by (by apply emitted_app).
  assert (He1 : emitted (PyState hp o lg)
                  (PyState (heap e) (options e)
                     ((lg ++ [Warning warm_start_msg]) ++ log e))
                = Warning warm_start_msg :: log e).
  { apply emitted_app. cbn [log]. by rewrite <- app_assoc. }
  rewrite He0, He1.
  assert (Hw : count_occ string_dec (warnings (log e)) warm_start_msg = 0).
  { apply call_spec in E as (_ & _ & new & Hlog & Hr).
    cbn [log app] in Hlog. subst new.
    destruct r as [v|ex].
    - destruct Hr as (x & sol & _ & _ & Hs).
      destruct Hs as (P_ & σ & status & _ & _ & _ & [(_ & _ & ->) | (_ & Hs)]).
      + reflexivity.
      + destruct Hs as (C & C_ & lb_C & ub_C & k & _ & ->).
        cbn [warm_start_warning app warnings]. rewrite warnings_app.
        unfold cap_warning.
        destruct (ReturnValue_eqb status MAX_NWSR_REACHED); [|reflexivity].
        cbn [warnings app count_occ].
        destruct (string_dec (max_nwsr_msg k) warm_start_msg) as [Hk|_];
          [|reflexivity].
        by apply max_nwsr_msg_not_warm_start in Hk.
    - by rewrite Hr. }
  repeat split; try reflexivity.
  - cbn [warnings count_occ].
    destruct (string_dec warm_start_msg warm_start_msg); [|done].
    by rewrite Hw.
  - exact Hw.
Qed.



Section Frame.

Context (B : Backend).



End Frame.


(** * More of the adapter's behaviour *)

(** ** Three more walks over the adapter *)

Ltac name_exception :=
  repeat match goal with
  | E : vstack [?a; ?a] = Raise _ |- _ =>
      apply vstack_twice_raise in E; destruct E
  | E : vstack _ = Raise _ |- _ =>
      apply vstack_raise in E; subst
  | E : hstack _ = Raise _ |- _ =>
      apply hstack_raise in E; subst
  end.

Ltac solve_exception :=
  first
    [ absurd_leaf
    | name_exception; cbn [exception_post];
      first [ exact I | repeat split; first [ done | assumption ] ] ].

Lemma lookup_beyond {A} (l k : list A) :
  length l <= length k -> l !! length k = None.
Proof. apply lookup_ge_None_2. Qed.

Ltac solve_longer :=
  cbn [heap options log];
  rewrite ?length_alter, ?length_app; cbn [length]; lia.

Ltac solve_buffer :=
  first
    [ absurd_leaf
    | cbn [heap options log] in *; cbn [buffer_post];
      first
        [ exact I
        | rewrite ?alter_fresh;
          do 4 eexists;
          split; [ reflexivity | ];
          split; [ eassumption | ];
          split; [ apply lookup_beyond; solve_longer | ];
          split; apply lookup_fresh ] ].

Ltac solve_counted_events :=
  cbn [warm_start_warning app];
  repeat (apply (f_equal2 cons); [ reflexivity | ]);
  first
    [ reflexivity
    | apply cap_warning_true; assumption
    | apply cap_warning_false; assumption ].

Ltac init_answer :=
  repeat match goal with
  | E : ?p = (_, _) |- _ => is_var p; subst p
  end;
  eassumption.

Ltac solve_counter :=
  first
    [ absurd_leaf
    | cbn [heap options log] in *; cbn [counter_post];
      first
        [ exact I
        | read_counter;
          rewrite ?alter_fresh;
          do 6 eexists;
          split; [ solve_log | ];
          split; [ | split ];
          [ | | first
                  [ left; split; [ reflexivity | ]; split; [ reflexivity | ];
                    eexists; split;
                    [ | cbn [warm_start_warning app]; reflexivity ];
                    init_answer
                  | right; split; [ first [ by left | by right ] | ];
                    do 5 eexists; split; [ | solve_counted_events ];
                    init_answer ] ];
          solve_lookup ] ].

Section Walks.

Context (B : Backend).

Lemma exception_holds P q G h A b initvals s :
  wp (qpoases_solve_qp B P q G h A b initvals) s
     (fun r _ => exception_post G h A r).
Proof.
  unfold qpoases_solve_qp.
  repeat wp_step.
  all: cbn beta iota.
  all: solve_exception.
Qed.

Lemma buffer_holds P q G h A b initvals s :
  wp (qpoases_solve_qp B P q G h A b initvals) s (buffer_post B P s).
Proof.
  unfold qpoases_solve_qp.
  repeat wp_step.
  all: cbn beta iota.
  all: solve_buffer.
Qed.

Lemma counter_holds P q G h A b initvals s :
  wp (qpoases_solve_qp B P q G h A b initvals) s
     (counter_post B P q G A initvals s).
Proof.
  unfold qpoases_solve_qp.
  repeat wp_step.
  all: cbn beta iota.
  all: solve_counter.
Qed.

Lemma exception_spec P q G h A b initvals s r s' :
  qpoases_solve_qp B P q G h A b initvals s = (r, s') ->
  exception_post G h A r.
Proof.
  intros H. pose proof (exception_holds P q G h A b initvals s) as W.
  unfold wp in W. by rewrite H in W.
Qed.

Lemma buffer_spec P q G h A b initvals s r s' :
  qpoases_solve_qp B P q G h A b initvals s = (r, s') ->
  buffer_post B P s r s'.
Proof.
  intros H. pose proof (buffer_holds P q G h A b initvals s) as W.
  unfold wp in W. by rewrite H in W.
Qed.

Lemma counter_spec P q G h A b initvals s r s' :
  qpoases_solve_qp B P q G h A b initvals s = (r, s') ->
  counter_post B P q G A initvals s r s'.
Proof.
  intros H. pose proof (counter_holds P q G h A b initvals s) as W.
  unfold wp in W. by rewrite H in W.
Qed.

End Walks.

(** ** The returned array *)

(** X1.  A call that returns hands back a reference to an array that did
    not exist before the call, so the result aliases none of the caller's
    arrays; the array is a one-dimensional [float64] array. *)
Theorem result_is_a_new_array
    (B : Backend) (P q : loc) (G h A b initvals : pyref) (s s' : pystate)
    (v : pyref) :
  qpoases_solve_qp B P q G h A b initvals s = (Ok v, s') ->
  exists x sol,
    v = Some x /\
    heap s !! x = None /\
    heap s' !! x = Some (Arr1 sol) /\
    forall l, is_Some (heap s !! l) -> l <> x.
Proof.
  intros E. apply buffer_spec in E as (x & P_ & qp_ & σ & -> & _ & Hx & _ & Hs).
  exists x. eexists. split; [reflexivity|]. split; [exact Hx|].
  split; [exact Hs|].
  intros l [a Hl] ->. congruence.
Qed.

Lemma result_is_a_new_array_witness :
  exists x sol,
    Some 7 = Some x /\
    caller_arrays !! x = None /\
    heap (qpoases_solve_qp (stub SUCCESSFUL_RETURN 1) 0 1 (Some 4) (Some 5)
            None None None (import_module caller_arrays)).2 !! x
    = Some (Arr1 sol) /\
    forall l, is_Some (caller_arrays !! l) -> l <> x.
Proof.
  exact (result_is_a_new_array (stub SUCCESSFUL_RETURN 1) 0 1
           (Some 4) (Some 5) None None None (import_module caller_arrays)
           _ (Some 7) eq_refl).
Defined.

Lemma stub_fills_buffer status k : fills_buffer (stub status k).
Proof. intros qp_ σ x v H. simpl. by rewrite H. Qed.

(** X2.  With a solver that fills the buffer it is given, a call that
    returns hands back a vector of length [n = P.shape[0]]: the buffer is
    [zeros(n)]. *)
Theorem result_has_length_n
    (B : Backend) (P q : loc) (G h A b initvals : pyref) (s s' : pystate)
    (v : pyref) (P_ : ndarray) :
  fills_buffer B ->
  heap s !! P = Some P_ ->
  qpoases_solve_qp B P q G h A b initvals s = (Ok v, s') ->
  exists x sol,
    v = Some x /\ heap s' !! x = Some (Arr1 sol) /\ length sol = shape0 P_.
Proof.
  intros HB HP E.
  apply buffer_spec in E as (x & P' & qp_ & σ & -> & HP' & _ & Hz & Hs).
  assert (P' = P_) as -> by congruence.
  exists x. eexists. split; [reflexivity|]. split; [exact Hs|].
  rewrite (HB _ _ _ _ Hz). apply repeat_length.
Qed.

Lemma result_has_length_n_witness :
  exists x sol,
    Some 7 = Some x /\
    heap (qpoases_solve_qp (stub SUCCESSFUL_RETURN 1) 0 1 (Some 4) (Some 5)
            None None None (import_module caller_arrays)).2 !! x
    = Some (Arr1 sol) /\
    length sol = 2.
Proof.
  exact (result_has_length_n (stub SUCCESSFUL_RETURN 1) 0 1
           (Some 4) (Some 5) None None None (import_module caller_arrays)
           _ (Some 7) _ (stub_fills_buffer _ _) eq_refl eq_refl).
Defined.

(** ** Exceptions and warnings *)

(** X3.  A call that raises has emitted nothing but the warm-start warning
    (no solver was constructed), and the exception is [ValueError] or
    [AttributeError], both only with [G] and [A] given and the latter only
    with [h] omitted, unless an argument refers to no array of the store;
    the local variables [C], [lb_C], [ub_C] are never read unbound and
    [nb_wsr[0]] is never out of range. *)
Theorem exceptions_of_a_call
    (B : Backend) (P q : loc) (G h A b initvals : pyref) (s s' : pystate)
    (e : exn) :
  qpoases_solve_qp B P q G h A b initvals s = (Raise e, s') ->
  emitted s s' = warm_start_warning initvals /\
  e <> UnboundLocalError /\ e <> IndexError /\
  (e = ValueError -> G <> None /\ A <> None) /\
  (e = AttributeError -> G <> None /\ A <> None /\ h = None).
Proof.
  intros E.
  pose proof (exception_spec B _ _ _ _ _ _ _ _ _ _ E) as He.
  apply call_spec in E as (_ & _ & new & Hlog & ->).
  split; [by apply emitted_app|].
  destruct e; cbn [exception_post] in He; try done.
  all: repeat split; try done; intros; tauto.
Qed.

Lemma exceptions_of_a_call_witness :
  emitted (import_module caller_arrays)
    (qpoases_solve_qp (stub SUCCESSFUL_RETURN 1) 0 1 (Some 4) None
       (Some 2) (Some 3) (Some 1) (import_module caller_arrays)).2
  = warm_start_warning (Some 1) /\
  AttributeError <> UnboundLocalError /\ AttributeError <> IndexError /\
  (AttributeError = ValueError -> Some 4 <> None /\ Some 2 <> None) /\
  (AttributeError = AttributeError ->
   Some 4 <> None /\ Some 2 <> None /\ @None loc = None).
Proof.
  exact (exceptions_of_a_call (stub SUCCESSFUL_RETURN 1) 0 1 (Some 4) None
           (Some 2) (Some 3) (Some 1) (import_module caller_arrays)
           _ AttributeError eq_refl).
Defined.

Lemma ReturnValue_eqb_eq x y : ReturnValue_eqb x y = true <-> x = y.
Proof.
  destruct x, y; simpl; split; try done.
  - intros H. apply Z.eqb_eq in H. by subst.
  - intros [= ->]. apply Z.eqb_refl.
Qed.

(** X4.  With [G] or [A] given, a call that returns has called [qp.init]
    on the solver it constructed and configured, with the counter cell
    [nb_wsr] holding 100; afterwards the cell holds the count [k] that
    [qp.init] answered; the call warns that the maximum number of WSR was
    reached exactly when the status [qp.init] answered is
    [MAX_NWSR_REACHED], and the warning then names [k]. *)
Theorem cap_warning_names_the_counter
    (B : Backend) (P q : loc) (G h A b initvals : pyref) (s s' : pystate)
    (v : pyref) :
  G <> None \/ A <> None ->
  qpoases_solve_qp B P q G h A b initvals s = (Ok v, s') ->
  exists n nC C lb_C ub_C σ x,
    let '(_, status, k) :=
      init B (setOptions B (QProblem B n nC) (options s))
        σ P q C None None lb_C ub_C (length (heap s)) in
    solver_calls (emitted s s')
    = [New_QProblem n nC; SetOptions (options s);
       Init P q C None None lb_C ub_C (length (heap s)) σ status;
       GetPrimalSolution x] /\
    σ !! length (heap s) = Some (ArrInt [100%Z]) /\
    heap s' !! length (heap s) = Some (ArrInt [k]) /\
    (status = MAX_NWSR_REACHED ->
     warnings (emitted s s')
     = warnings (warm_start_warning initvals) ++ [max_nwsr_msg k]) /\
    (status <> MAX_NWSR_REACHED ->
     warnings (emitted s s') = warnings (warm_start_warning initvals)).
Proof.
  intros Hc E.
  apply counter_spec in E
    as (new & qp_ & status & k & σ & x & Hlog & Hcell & Hk & Hs).
  rewrite (emitted_app _ _ _ Hlog).
  destruct Hs as [(-> & -> & _) | (_ & n & nC & C & lb_C & ub_C & Hi & ->)].
  { by destruct Hc. }
  exists n, nC, C, lb_C, ub_C, σ, x. rewrite Hi.
  split.
  { rewrite !solver_calls_app, solver_calls_warm_start, solver_calls_cap.
    reflexivity. }
  split; [exact Hcell|]. split; [exact Hk|].
  rewrite !warnings_app. unfold cap_warning.
  destruct (ReturnValue_eqb status MAX_NWSR_REACHED) eqn:Es; simpl.
  - apply ReturnValue_eqb_eq in Es. split; [done|]. intros Hn. by destruct Hn.
  - split; [|by rewrite app_nil_r].
    intros Hm. apply ReturnValue_eqb_eq in Hm. congruence.
Qed.

Lemma cap_warning_names_the_counter_witness :
  let s := import_module caller_arrays in
  let s' := (qpoases_solve_qp (stub MAX_NWSR_REACHED 7) 0 1
               (Some 4) (Some 5) None None None s).2 in
  exists n nC C lb_C ub_C σ x,
    solver_calls (emitted s s')
    = [New_QProblem n nC; SetOptions (mkOptions NONE);
       Init 0 1 C None None lb_C ub_C 6 σ MAX_NWSR_REACHED;
       GetPrimalSolution x] /\
    σ !! 6 = Some (ArrInt [100%Z]) /\
    heap s' !! 6 = Some (ArrInt [7%Z]) /\
    (MAX_NWSR_REACHED = MAX_NWSR_REACHED ->
     warnings (emitted s s') = [] ++ [max_nwsr_msg 7]) /\
    (MAX_NWSR_REACHED <> MAX_NWSR_REACHED ->
     warnings (emitted s s') = []).
Proof.
  refine (cap_warning_names_the_counter (stub MAX_NWSR_REACHED 7) 0 1
            (Some 4) (Some 5) None None None (import_module caller_arrays)
            _ (Some 7) _ eq_refl).
  left. discriminate.
Defined.

Lemma append_inj_r (s1 s2 t : string) :
  String.length s1 = String.length s2 ->
  String.append s1 t = String.append s2 t -> s1 = s2.
Proof.
  revert s2. induction s1 as [|c s1 IH]; intros [|c' s2]; simpl; try done.
  intros [= Hl] [= -> H]. f_equal. by apply IH.
Qed.

Lemma append_length (s t : string) :
  String.length (String.append s t) = String.length s + String.length t.
Proof. induction s as [|c s IH]; simpl; [done|]. by rewrite IH. Qed.

Lemma format_d_inj z1 z2 : format_d z1 = format_d z2 -> z1 = z2.
Proof.
  unfold format_d. intros H.
  apply DecimalZ.to_int_inj.
  assert (Hs : Some (Z.to_int z1) = Some (Z.to_int z2))
    by (rewrite <- !NilEmpty.isi; by rewrite H).
  by injection Hs.
Qed.

(** X5.  The warning about the iteration cap determines the count it
    names: two counts with the same message are equal. *)
Theorem max_nwsr_msg_inj (z1 z2 : Z) :
  max_nwsr_msg z1 = max_nwsr_msg z2 -> z1 = z2.
Proof.
  unfold max_nwsr_msg. intros H. cbn [String.append] in H.
  repeat injection H as H.
  apply format_d_inj, (append_inj_r _ _ ")"); [|exact H].
  apply (f_equal String.length) in H. rewrite !append_length in H. lia.
Qed.

Lemma max_nwsr_msg_inj_witness : 100%Z = 100%Z.
Proof. exact (max_nwsr_msg_inj 100 100 eq_refl). Defined.

(** ** Edges of the constraint configurations *)

(** X6.  In the equality-only configuration ([A] with [meq] rows, no [G])
    the call returns, and the solver is constructed as
    [QProblem(n, 2 * meq)] on a block [C] that is a new array holding the
    rows of [A] twice; [A] itself is read, not changed. *)
Theorem equality_only_doubles_A
    (B : Backend) (P q a : loc) (h b initvals : pyref) (s : pystate)
    (P_ : ndarray) (Am : matrix) :
  heap s !! P = Some P_ ->
  heap s !! a = Some (Arr2 Am) ->
  let '(r, s') := qpoases_solve_qp B P q None h (Some a) b initvals s in
  exists x C lb_C ub_C σ status,
    r = Ok (Some x) /\
    solver_calls (emitted s s')
    = [New_QProblem (shape0 P_) (2 * length (mrows Am));
       SetOptions (options s);
       Init P q C None None lb_C ub_C (length (heap s)) σ status;
       GetPrimalSolution x] /\
    heap s !! C = None /\
    σ !! C = Some (Arr2 (Matrix (ncols Am) (mrows Am ++ mrows Am))) /\
    σ !! a = Some (Arr2 Am).
Proof.
  intros HP HA.
  rewrite (run_A_only B P q h a b initvals s P_ Am HP HA). cbv zeta.
  unfold constrained_run.
  destruct (init B _ _ _ _ _ _ _ _ _ _) as [[qp_ status] k].
  do 6 eexists. split; [reflexivity|].
  erewrite emitted_app by reflexivity.
  rewrite !solver_calls_app, solver_calls_warm_start, solver_calls_cap.
  cbn [solver_calls app shape0 mrows].
  split.
  { replace (2 * length (mrows Am)) with (length (mrows Am ++ mrows Am))
      by (rewrite length_app; lia).
    reflexivity. }
  split; [apply lookup_beyond; rewrite length_app; lia|].
  split; [apply lookup_fresh|].
  by do 2 apply lookup_app_l_Some.
Qed.

Lemma equality_only_doubles_A_witness :
  let s := import_module caller_arrays in
  let '(r, s') := qpoases_solve_qp (stub SUCCESSFUL_RETURN 1) 0 1
                    None None (Some 2) (Some 3) None s in
  exists x C lb_C ub_C σ status,
    r = Ok (Some x) /\
    solver_calls (emitted s s')
    = [New_QProblem 2 (2 * 1); SetOptions (options s);
       Init 0 1 C None None lb_C ub_C (length caller_arrays) σ status;
       GetPrimalSolution x] /\
    caller_arrays !! C = None /\
    σ !! C = Some (Arr2 (Matrix 2 [[1; 1]; [1; 1]]%float)) /\
    σ !! 2 = Some (Arr2 (Matrix 2 [[1; 1]]%float)).
Proof.
  exact (equality_only_doubles_A (stub SUCCESSFUL_RETURN 1) 0 1 2
           None (Some 3) None (import_module caller_arrays) _ _
           eq_refl eq_refl).
Defined.

(** X7.  With [G] and [A] of different column counts [vstack] raises
    [ValueError]: by then the call has allocated the counter cell and
    emitted the warm-start warning (if [initvals] was given), nothing
    else. *)
Theorem column_mismatch_raises_ValueError
    (B : Backend) (P q g a : loc) (h b initvals : pyref) (s : pystate)
    (P_ : ndarray) (Gm Am : matrix) :
  heap s !! P = Some P_ ->
  heap s !! g = Some (Arr2 Gm) ->
  heap s !! a = Some (Arr2 Am) ->
  ncols Gm <> ncols Am ->
  qpoases_solve_qp B P q (Some g) h (Some a) b initvals s
  = (Raise ValueError,
     PyState (heap s ++ [ArrInt [100%Z]]) (options s)
       (log s ++ warm_start_warning initvals)).
Proof.
  intros HP HG HA Hc.
  destruct initvals; cbn [warm_start_warning]; rewrite ?app_nil_r;
    unfold qpoases_solve_qp.
  all: do 2 step; cbv zeta; repeat step.
  all: rewrite (vstack_G_A_A_mismatch Gm Am Hc).
  all: repeat (apply bind_assoc_eq).
  all: apply bind_raise; reflexivity.
Qed.

Lemma column_mismatch_raises_ValueError_witness :
  qpoases_solve_qp (stub SUCCESSFUL_RETURN 1) 0 1 (Some 4) (Some 5)
    (Some 2) (Some 3) None (import_module mismatched_arrays)
  = (Raise ValueError,
     PyState (mismatched_arrays ++ [ArrInt [100%Z]]) (mkOptions NONE)
       ([] ++ warm_start_warning None)).
Proof.
  refine (column_mismatch_raises_ValueError (stub SUCCESSFUL_RETURN 1)
            0 1 4 2 (Some 5) (Some 3) None (import_module mismatched_arrays)
            _ _ _ eq_refl eq_refl eq_refl _).
  simpl. lia.
Defined.

(** X8.  With [G] and [A] given but [h] omitted, [h.shape] raises
    [AttributeError] after the block [C] has been built: no solver is
    constructed. *)
Theorem missing_h_raises_AttributeError
    (B : Backend) (P q g a : loc) (b initvals : pyref) (s : pystate)
    (P_ : ndarray) (Gm Am : matrix) :
  heap s !! P = Some P_ ->
  heap s !! g = Some (Arr2 Gm) ->
  heap s !! a = Some (Arr2 Am) ->
  ncols Gm = ncols Am ->
  qpoases_solve_qp B P q (Some g) None (Some a) b initvals s
  = (Raise AttributeError,
     PyState
       (heap s ++ [ArrInt [100%Z];
                   Arr2 (Matrix (ncols Gm)
                           (mrows Gm ++ mrows Am ++ mrows Am))])
       (options s)
       (log s ++ warm_start_warning initvals)).
Proof.
  intros HP HG HA Hc.
  destruct initvals; cbn [warm_start_warning]; rewrite ?app_nil_r;
    unfold qpoases_solve_qp.
  all: do 2 step; cbv zeta; repeat step.
  all: repeat (apply bind_assoc_eq).
  all: apply bind_raise; cbn [attr raise].
  all: by rewrite <- app_assoc.
Qed.

Lemma missing_h_raises_AttributeError_witness :
  qpoases_solve_qp (stub SUCCESSFUL_RETURN 1) 0 1 (Some 4) None
    (Some 2) (Some 3) None (import_module caller_arrays)
  = (Raise AttributeError,
     PyState
       (caller_arrays
          ++ [ArrInt [100%Z];
              Arr2 (Matrix 2 ([[-1; 0]] ++ [[1; 1]] ++ [[1; 1]])%float)])
       (mkOptions NONE)
       ([] ++ warm_start_warning None)).
Proof.
  exact (missing_h_raises_AttributeError (stub SUCCESSFUL_RETURN 1)
           0 1 4 2 (Some 3) None (import_module caller_arrays)
           _ _ _ eq_refl eq_refl eq_refl eq_refl).
Defined.

(** X9.  With [G] and [A] given but [b] omitted no exception is raised:
    [hstack] puts [None] after the entries, and both constraint bounds
    passed to [qp.init] are object arrays of [m + 1] entries ending in
    [None]. *)
Theorem missing_b_passes_object_arrays
    (B : Backend) (P q g hl a : loc) (initvals : pyref) (s : pystate)
    (P_ : ndarray) (Gm Am : matrix) (hv : vector) :
  heap s !! P = Some P_ ->
  heap s !! g = Some (Arr2 Gm) ->
  heap s !! a = Some (Arr2 Am) ->
  heap s !! hl = Some (Arr1 hv) ->
  ncols Gm = ncols Am ->
  let m := length hv in
  let '(r, s') :=
    qpoases_solve_qp B P q (Some g) (Some hl) (Some a) None initvals s in
  exists x C lb_C ub_C nb_wsr σ status lbv ubv,
    r = Ok (Some x) /\
    Init P q C None None (Some lb_C) (Some ub_C) nb_wsr σ status
      ∈ emitted s s' /\
    σ !! lb_C = Some (ArrObj lbv) /\
    lbv = map Some (repeat (-1e10)%float m) ++ [None] /\
    σ !! ub_C = Some (ArrObj ubv) /\
    ubv = map Some hv ++ [None] /\
    length lbv = m + 1 /\ length ubv = m + 1.
Proof.
  intros HP HG HA Hh Hc m.
  rewrite (run_both_without_b B P q g hl a initvals s P_ Gm Am hv
             HP HG HA Hh Hc).
  cbv zeta. unfold constrained_run.
  destruct (init B _ _ _ _ _ _ _ _ _ _) as [[qp_ status] k].
  rewrite minus_infty_block. fold m.
  do 9 eexists. split; [reflexivity|].
  erewrite emitted_app by reflexivity.
  split; [apply init_in_session|].
  split; [solve_lookup|]. split; [reflexivity|].
  split; [solve_lookup|]. split; [reflexivity|].
  rewrite !length_app, !length_map, repeat_length. done.
Qed.

Lemma missing_b_passes_object_arrays_witness :
  let s := import_module caller_arrays in
  let '(r, s') :=
    qpoases_solve_qp (stub SUCCESSFUL_RETURN 1) 0 1
      (Some 4) (Some 5) (Some 2) None None s in
  exists x C lb_C ub_C nb_wsr σ status lbv ubv,
    r = Ok (Some x) /\
    Init 0 1 C None None (Some lb_C) (Some ub_C) nb_wsr σ status
      ∈ emitted s s' /\
    σ !! lb_C = Some (ArrObj lbv) /\
    lbv = [Some (-1e10)%float; None] /\
    σ !! ub_C = Some (ArrObj ubv) /\
    ubv = [Some 0%float; None] /\
    length lbv = 1 + 1 /\ length ubv = 1 + 1.
Proof.
  exact (missing_b_passes_object_arrays (stub SUCCESSFUL_RETURN 1)
           0 1 4 5 2 None (import_module caller_arrays) _ _ _ _
           eq_refl eq_refl eq_refl eq_refl eq_refl).
Defined.

(** X10.  With [G] given but [h] and [A] omitted no exception is raised:
    the solver is initialised on [C = G] with [None] for both constraint
    bounds, so the rows of [G] constrain nothing. *)
Theorem inequality_only_without_h
    (B : Backend) (P q g : loc) (b initvals : pyref) (s : pystate)
    (P_ G_ : ndarray) :
  heap s !! P = Some P_ ->
  heap s !! g = Some G_ ->
  let '(r, s') := qpoases_solve_qp B P q (Some g) None None b initvals s in
  exists x σ status,
    r = Ok (Some x) /\
    solver_calls (emitted s s')
    = [New_QProblem (shape0 P_) (shape0 G_); SetOptions (options s);
       Init P q g None None None None (length (heap s)) σ status;
       GetPrimalSolution x].
Proof.
  intros HP HG.
  rewrite (run_G_only B P q g None b initvals s P_ G_ HP HG).
  unfold constrained_run.
  destruct (init B _ _ _ _ _ _ _ _ _ _) as [[qp_ status] k].
  do 3 eexists. split; [reflexivity|].
  erewrite emitted_app by reflexivity.
  rewrite !solver_calls_app, solver_calls_warm_start, solver_calls_cap.
  reflexivity.
Qed.

Lemma inequality_only_without_h_witness :
  let s := import_module caller_arrays in
  let '(r, s') := qpoases_solve_qp (stub SUCCESSFUL_RETURN 1) 0 1
                    (Some 4) None None None None s in
  exists x σ status,
    r = Ok (Some x) /\
    solver_calls (emitted s s')
    = [New_QProblem 2 1; SetOptions (options s);
       Init 0 1 4 None None None None (length caller_arrays) σ status;
       GetPrimalSolution x].
Proof.
  exact (inequality_only_without_h (stub SUCCESSFUL_RETURN 1) 0 1 4
           None None (import_module caller_arrays) _ _ eq_refl eq_refl).
Defined.

(** X12.  With [G] and [A] given and integer bounds [h] and [b], numpy
    promotes: the lower constraint bound passed to [qp.init] is the
    [float64] array of [m] copies of [-1e10] followed by the entries of
    [b] cast to floats, and the upper constraint bound is the integer
    array of the entries of [h] followed by those of [b]. *)
Theorem integer_bounds_are_promoted
    (B : Backend) (P q g hl a bl : loc) (initvals : pyref) (s : pystate)
    (P_ : ndarray) (Gm Am : matrix) (hz bz : list Z) :
  heap s !! P = Some P_ ->
  heap s !! g = Some (Arr2 Gm) ->
  heap s !! a = Some (Arr2 Am) ->
  heap s !! hl = Some (ArrInt hz) ->
  heap s !! bl = Some (ArrInt bz) ->
  ncols Gm = ncols Am ->
  let m := length hz in
  let '(r, s') :=
    qpoases_solve_qp B P q (Some g) (Some hl) (Some a) (Some bl)
      initvals s in
  exists x C lb_C ub_C nb_wsr σ status,
    r = Ok (Some x) /\
    Init P q C None None (Some lb_C) (Some ub_C) nb_wsr σ status
      ∈ emitted s s' /\
    σ !! lb_C
    = Some (Arr1 (repeat (-1e10)%float m ++ map float_of_int bz)) /\
    σ !! ub_C = Some (ArrInt (hz ++ bz)).
Proof.
  intros HP HG HA Hh Hb Hc m.
  rewrite (run_both_stacked B P q g hl a bl initvals s _ _ _ _ _ _ _ _
             HP HG HA Hh Hb (vstack_G_A_A Gm Am Hc)
             (hstack_float_int _ bz) (hstack_int_int hz bz)).
  cbv zeta. unfold constrained_run.
  destruct (init B _ _ _ _ _ _ _ _ _ _) as [[qp_ status] k].
  cbn [shape0]. rewrite minus_infty_block. fold m.
  do 7 eexists. split; [reflexivity|].
  erewrite emitted_app by reflexivity.
  split; [apply init_in_session|].
  split; solve_lookup.
Qed.

Lemma integer_bounds_are_promoted_witness :
  let s := import_module integer_arrays in
  let '(r, s') :=
    qpoases_solve_qp (stub SUCCESSFUL_RETURN 1) 0 1
      (Some 4) (Some 5) (Some 2) (Some 3) None s in
  exists x C lb_C ub_C nb_wsr σ status,
    r = Ok (Some x) /\
    Init 0 1 C None None (Some lb_C) (Some ub_C) nb_wsr σ status
      ∈ emitted s s' /\
    σ !! lb_C = Some (Arr1 [-1e10; 1]%float) /\
    σ !! ub_C = Some (ArrInt [0%Z; 1%Z]).
Proof.
  exact (integer_bounds_are_promoted (stub SUCCESSFUL_RETURN 1)
           0 1 4 5 2 3 None (import_module integer_arrays) _ _ _ _ _
           eq_refl eq_refl eq_refl eq_refl eq_refl eq_refl).
Defined.

(** X13.  With [G] and [A] given and a two-dimensional [b], [hstack]
    raises [ValueError] after the block [C] has been built: no solver is
    constructed. *)
Theorem two_dimensional_b_raises_ValueError
    (B : Backend) (P q g hl a bl : loc) (initvals : pyref) (s : pystate)
    (P_ h_ b_ : ndarray) (Gm Am : matrix) :
  heap s !! P = Some P_ ->
  heap s !! g = Some (Arr2 Gm) ->
  heap s !! a = Some (Arr2 Am) ->
  heap s !! hl = Some h_ ->
  heap s !! bl = Some b_ ->
  ncols Gm = ncols Am ->
  ndim b_ = 2 ->
  qpoases_solve_qp B P q (Some g) (Some hl) (Some a) (Some bl) initvals s
  = (Raise ValueError,
     PyState
       (heap s ++ [ArrInt [100%Z];
                   Arr2 (Matrix (ncols Gm)
                           (mrows Gm ++ mrows Am ++ mrows Am))])
       (options s)
       (log s ++ warm_start_warning initvals)).
Proof.
  intros HP HG HA Hh Hb Hc Hn.
  exact (run_both_2d_b B P q g hl a bl initvals s _ _ _ _ _ _
           HP HG HA Hh Hb (vstack_G_A_A Gm Am Hc) Hn).
Qed.

Lemma two_dimensional_b_raises_ValueError_witness :
  qpoases_solve_qp (stub SUCCESSFUL_RETURN 1) 0 1 (Some 4) (Some 5)
    (Some 2) (Some 3) None (import_module column_arrays)
  = (Raise ValueError,
     PyState
       (column_arrays
          ++ [ArrInt [100%Z];
              Arr2 (Matrix 2 ([[-1; 0]] ++ [[1; 1]] ++ [[1; 1]])%float)])
       (mkOptions NONE)
       ([] ++ warm_start_warning None)).
Proof.
  exact (two_dimensional_b_raises_ValueError (stub SUCCESSFUL_RETURN 1)
           0 1 4 5 2 3 None (import_module column_arrays)
           _ _ _ _ _ eq_refl eq_refl eq_refl eq_refl eq_refl eq_refl
           eq_refl).
Defined.

(** ** Two calls in a row *)

(** X11.  The vector returned by a call is not touched by the next call:
    the next call returns another array, and the first one still holds
    what it held. *)
Theorem results_do_not_alias
    (B : Backend) (P q P' q' : loc) (G h A b initvals : pyref)
    (G' h' A' b' initvals' : pyref) (s s1 s2 : pystate) (x1 x2 : loc) :
  qpoases_solve_qp B P q G h A b initvals s = (Ok (Some x1), s1) ->
  qpoases_solve_qp B P' q' G' h' A' b' initvals' s1 = (Ok (Some x2), s2) ->
  x1 <> x2 /\
  exists sol, heap s1 !! x1 = Some (Arr1 sol) /\
              heap s2 !! x1 = Some (Arr1 sol).
Proof.
  intros E1 E2.
  pose proof (buffer_spec B _ _ _ _ _ _ _ _ _ _ E1)
    as (y1 & _ & qp1 & σ1 & [= <-] & _ & _ & _ & H1).
  pose proof (buffer_spec B _ _ _ _ _ _ _ _ _ _ E2)
    as (y2 & _ & qp2 & σ2 & [= <-] & _ & H2 & _ & _).
  pose proof (call_spec B _ _ _ _ _ _ _ _ _ _ E2) as (_ & Hp & _).
  split; [congruence|].
  eexists. split; [exact H1|]. by eapply prefix_lookup_Some.
Qed.

Lemma results_do_not_alias_witness :
  7 <> 9 /\
  exists sol,
    heap (qpoases_solve_qp (stub SUCCESSFUL_RETURN 1) 0 1 (Some 4) (Some 5)
            None None None (import_module caller_arrays)).2 !! 7
    = Some (Arr1 sol) /\
    heap (qpoases_solve_qp (stub SUCCESSFUL_RETURN 1) 0 1 None None
            None None None
            (qpoases_solve_qp (stub SUCCESSFUL_RETURN 1) 0 1 (Some 4) (Some 5)
               None None None (import_module caller_arrays)).2).2 !! 7
    = Some (Arr1 sol).
Proof.
  refine (results_do_not_alias (stub SUCCESSFUL_RETURN 1) 0 1 0 1
            (Some 4) (Some 5) None None None None None None None None
            (import_module caller_arrays)
            (qpoases_solve_qp (stub SUCCESSFUL_RETURN 1) 0 1 (Some 4) (Some 5)
               None None None (import_module caller_arrays)).2
            (qpoases_solve_qp (stub SUCCESSFUL_RETURN 1) 0 1 None None
               None None None
               (qpoases_solve_qp (stub SUCCESSFUL_RETURN 1) 0 1
                  (Some 4) (Some 5) None None None
                  (import_module caller_arrays)).2).2
            7 9 _ _).
  - vm_compute. reflexivity.
  - vm_compute. reflexivity.
Defined.
